(** * Osmosis frontend: string utilities and limit-order hooks

    Shallow embedding of
    - [packages/utils/src/string.ts] (truncation, casing, URL and address
      helpers), and
    - [packages/web/hooks/limit-orders/use-orderbook.ts] (the order-book
      data hooks and the bulk claim callback).

    JavaScript strings are sequences of code units; they are modelled as
    lists of [ascii] (code units below 256).  JavaScript numbers that carry
    lengths and indices are modelled as [Z], so that negative arguments keep
    the meaning the string methods give them; the lengths that [shorten]
    takes in its options are modelled as [Js.number], which also has the
    values that are not integers. *)

From Stdlib Require Import ZArith QArith List Bool Ascii String Lia Permutation.
Import ListNotations.

Open Scope Z_scope.

(* ================================================================== *)
(** ** JavaScript string primitives                                     *)
(* ================================================================== *)

Module Js.

Definition jsstring := list ascii.

(** A string literal. *)
Definition lit (s : string) : jsstring := list_ascii_of_string s.

(** [str.length] *)
Definition len (s : jsstring) : Z := Z.of_nat (List.length s).

(** [a === b] on strings. *)
Definition streq (a b : jsstring) : bool :=
  if list_eq_dec ascii_dec a b then true else false.

(** Truthiness of a string: [!!s]. *)
Definition truthy (s : jsstring) : bool :=
  match s with [] => false | _ :: _ => true end.

(** Relative index resolution shared by [slice]: a negative index counts
    from the end, and everything is clamped to [0, n]. *)
Definition rel_index (n i : Z) : Z :=
  if i <? 0 then Z.max (n + i) 0 else Z.min i n.

(** [s.slice(b, e)] *)
Definition slice (s : jsstring) (b e : Z) : jsstring :=
  let n := len s in
  let from := rel_index n b in
  let to := rel_index n e in
  firstn (Z.to_nat (to - from)) (skipn (Z.to_nat from) s).

(** Clamping used by [substring]: negative becomes 0, too large becomes n. *)
Definition clamp (n i : Z) : Z := Z.min (Z.max i 0) n.

(** [s.substring(a, b)]: both ends clamped, then swapped when out of order. *)
Definition substring (s : jsstring) (a b : Z) : jsstring :=
  let n := len s in
  let fa := clamp n a in
  let fb := clamp n b in
  let from := Z.min fa fb in
  let to := Z.max fa fb in
  firstn (Z.to_nat (to - from)) (skipn (Z.to_nat from) s).

Definition code (c : ascii) : N := N_of_ascii c.

(** White space and line terminators among the code units below 256. *)
Definition is_space (c : ascii) : bool :=
  let n := code c in
  (((9 <=? n) && (n <=? 13)) || (n =? 32) || (n =? 160))%N.

Fixpoint trimStart (s : jsstring) : jsstring :=
  match s with
  | c :: r => if is_space c then trimStart r else s
  | [] => []
  end.

Definition trimEnd (s : jsstring) : jsstring := rev (trimStart (rev s)).

(** [s.trim()] *)
Definition trim (s : jsstring) : jsstring := trimEnd (trimStart s).

(** The character classes [[A-Z]] and [[a-z]] of the regular expressions. *)
Definition is_AZ (c : ascii) : bool :=
  let n := code c in ((65 <=? n) && (n <=? 90))%N.

Definition is_az (c : ascii) : bool :=
  let n := code c in ((97 <=? n) && (n <=? 122))%N.

(** Lower-casing of one code unit: the ASCII capitals and the Latin-1
    capitals (U+00C0..U+00DE except the multiplication sign U+00D7). *)
Definition lower_char (c : ascii) : ascii :=
  let n := code c in
  if (is_AZ c || ((192 <=? n) && (n <=? 222) && negb (n =? 215)))%N
  then ascii_of_N (n + 32)
  else c.

(** [s.toLowerCase()] *)
Definition toLowerCase (s : jsstring) : jsstring := map lower_char s.

(** [s.startsWith(p)], as a boolean, and the rest after the prefix. *)
Fixpoint strip_prefix (p s : jsstring) : option jsstring :=
  match p, s with
  | [], _ => Some s
  | a :: p', b :: s' => if Ascii.eqb a b then strip_prefix p' s' else None
  | _ :: _, [] => None
  end.

Definition starts_with (p s : jsstring) : bool :=
  match strip_prefix p s with Some _ => true | None => false end.

Definition ends_with (p s : jsstring) : bool := starts_with (rev p) (rev s).

(** A JavaScript number: a finite value, an infinity or [NaN].  Finite
    values are rationals (every double is one).  Sums and differences of
    finite values are taken exactly; this is the double result whenever the
    operands are integers, which is what the statements below are about. *)
Inductive number :=
  | Finite (q : Q)
  | PosInfinity
  | NegInfinity
  | NaN.

(** The number of an integer. *)
Definition of_int (z : Z) : number := Finite (inject_Z z).

(** [a + b] *)
Definition num_add (a b : number) : number :=
  match a, b with
  | NaN, _ | _, NaN => NaN
  | PosInfinity, NegInfinity | NegInfinity, PosInfinity => NaN
  | PosInfinity, _ | _, PosInfinity => PosInfinity
  | NegInfinity, _ | _, NegInfinity => NegInfinity
  | Finite x, Finite y => Finite (x + y)
  end.

(** [-a] and [a - b] *)
Definition num_neg (a : number) : number :=
  match a with
  | Finite x => Finite (- x)
  | PosInfinity => NegInfinity
  | NegInfinity => PosInfinity
  | NaN => NaN
  end.

Definition num_sub (a b : number) : number := num_add a (num_neg b).

(** [a <= b]; every comparison with [NaN] is false. *)
Definition num_le (a b : number) : bool :=
  match a, b with
  | NaN, _ | _, NaN => false
  | _, PosInfinity => true
  | NegInfinity, _ => true
  | PosInfinity, _ => false
  | _, NegInfinity => false
  | Finite x, Finite y => Qle_bool x y
  end.

(** Truncation of a finite value towards zero. *)
Definition trunc (q : Q) : Z := Z.quot (Qnum q) (Zpos (Qden q)).

(** The integer [substring] makes of an argument, for a string of [n]
    units: [NaN] counts as 0, other values are truncated, and the
    infinities are given as the bounds they are clamped to. *)
Definition to_index (n : Z) (x : number) : Z :=
  match x with
  | Finite q => trunc q
  | PosInfinity => n
  | NegInfinity => 0
  | NaN => 0
  end.

(** [s.substring(a, b)] with arbitrary numbers as arguments. *)
Definition substring_num (s : jsstring) (a b : number) : jsstring :=
  substring s (to_index (len s) a) (to_index (len s) b).

End Js.

Import Js.

(* ================================================================== *)
(** ** packages/utils/src/string.ts                                     *)
(* ================================================================== *)

Module StringUtils.

(** [truncate(str, num = 8)] *)
Definition truncate (str : jsstring) (num : option Z) : jsstring :=
  let num := match num with Some n => n | None => 8 end in
  if len str <=? num then str
  else slice str 0 num ++ lit "...".

Record ShortenOpts := {
  prefixLength : option number;
  suffixLength : option number;
  delim : option jsstring
}.

(** [opts?.field ?? dflt] *)
Definition opt_field {A} (opts : option ShortenOpts)
  (f : ShortenOpts -> option A) (dflt : A) : A :=
  match opts with
  | Some o => match f o with Some v => v | None => dflt end
  | None => dflt
  end.

(** [shorten(string, opts?)] *)
Definition shorten (string : jsstring) (opts : option ShortenOpts) : jsstring :=
  if negb (truthy string) then lit ""
  else if num_le (of_int (len string))
            (num_add (opt_field opts prefixLength (of_int 6))
                     (opt_field opts suffixLength (of_int 5)))
  then string
  else
    let prefix :=
      substring_num string (of_int 0)
                    (opt_field opts prefixLength (of_int 6)) in
    let suffix :=
      substring_num string
        (num_sub (of_int (len string))
                 (opt_field opts suffixLength (of_int 5)))
        (of_int (len string)) in
    prefix ++ opt_field opts delim (lit "...") ++ suffix.

(** [/^https?:\/\//] at the start of the input: the rest after the match. *)
Definition match_scheme (url : jsstring) : option jsstring :=
  match strip_prefix (lit "http") url with
  | Some r =>
      match strip_prefix (lit "s") r with
      | Some r' =>
          match strip_prefix (lit "://") r' with
          | Some rest => Some rest
          | None => strip_prefix (lit "://") r
          end
      | None => strip_prefix (lit "://") r
      end
  | None => None
  end.

(** [url.replace(/^https?:\/\//, "")] *)
Definition replace_scheme (url : jsstring) : jsstring :=
  match match_scheme url with Some rest => rest | None => url end.

(** [url.replace(/^www\./, "")] *)
Definition replace_www (url : jsstring) : jsstring :=
  match strip_prefix (lit "www.") url with Some rest => rest | None => url end.

(** [url.replace(/\/$/, "")]: without the multiline flag [$] is the end of
    the input, so at most the last code unit goes. *)
Definition replace_trailing_slash (url : jsstring) : jsstring :=
  if ends_with (lit "/") url then removelast url else url.

Definition normalizeUrl (url : jsstring) : jsstring :=
  let url := replace_scheme url in
  let url := replace_www url in
  let url := replace_trailing_slash url in
  url.

(** [ellipsisText(str, maxLength)] *)
Definition ellipsisText (str : jsstring) (maxLength : Z) : jsstring :=
  if negb (truthy str) then lit ""
  else
    let trimmedStr := trim str in
    if len str >? maxLength
    then slice trimmedStr 0 (maxLength - 3) ++ lit "..."
    else trimmedStr.

(** [input.replace(/([a-z])([A-Z])/g, "$1_$2")]: matches are found left to
    right and do not overlap. *)
Fixpoint replace_lower_upper (s : jsstring) : jsstring :=
  match s with
  | c1 :: t =>
      match t with
      | c2 :: r =>
          if is_az c1 && is_AZ c2
          then c1 :: "_"%char :: c2 :: replace_lower_upper r
          else c1 :: replace_lower_upper t
      | [] => s
      end
  | [] => []
  end.

Definition camelCaseToSnakeCase (input : jsstring) : jsstring :=
  toLowerCase (replace_lower_upper input).

(** [str.replace(/[A-Z]/g, (letter) => `-${letter.toLowerCase()}`)] *)
Definition replace_capitals (str : jsstring) : jsstring :=
  flat_map
    (fun letter =>
       if is_AZ letter then "-"%char :: toLowerCase [letter] else [letter])
    str.

(** [s.replace(/^-/, "")] *)
Definition replace_leading_dash (s : jsstring) : jsstring :=
  match strip_prefix (lit "-") s with Some rest => rest | None => s end.

Definition camelToKebabCase (str : jsstring) : jsstring :=
  replace_leading_dash (replace_capitals str).

(** [s.split(".")] as the first piece and the pieces after it; the array
    always has a first element. *)
Fixpoint split_dot (s : jsstring) : jsstring * list jsstring :=
  match s with
  | [] => ([], [])
  | c :: r =>
      let '(piece, pieces) := split_dot r in
      if Ascii.eqb c "." then ([], piece :: pieces) else (c :: piece, pieces)
  end.

(** What [+] makes of a string that may be [undefined]. *)
Definition concat_operand (x : option jsstring) : jsstring :=
  match x with Some v => v | None => lit "undefined" end.

(** [formatICNSName(name?, maxLength = 28)]; [undefined] is [None]. *)
Definition formatICNSName (name : option jsstring) (maxLength : option Z)
  : option jsstring :=
  let maxLength := match maxLength with Some n => n | None => 28 end in
  match name with
  | None => None
  | Some name =>
      if negb (truthy name) then None
      else if len name <=? maxLength then Some name
      else
        let nameParts := split_dot name in
        let userName := fst nameParts in
        let chain := nth_error (snd nameParts) 0 in
        Some (substring userName 0 10 ++
              lit "..." ++
              substring userName (len userName - 5) (len userName) ++
              lit "." ++
              concat_operand chain)
  end.

End StringUtils.

(* ================================================================== *)
(** ** Address validators of packages/utils/src/string.ts               *)
(* ================================================================== *)

Module Address.

(** What [bitcoin.address.fromBase58Check] returns. *)
Record Base58CheckResult := {
  b58_version : Z;
  b58_hash : list Byte.byte
}.

(** What [bitcoin.address.fromBech32] returns. *)
Record BitcoinBech32Result := {
  btc_version : Z;
  btc_prefix : jsstring;
  btc_data : list Byte.byte
}.

(** What [cosmjsEncoding.fromBech32] returns. *)
Record Bech32Result := {
  prefix : jsstring;
  data : list Byte.byte
}.

(** The decoders of the imported libraries.  Each one either returns a
    decoded value or throws; a throw is [None]. *)
Record Codecs := {
  fromBase58Check : jsstring -> option Base58CheckResult;
  bitcoin_fromBech32 : jsstring -> option BitcoinBech32Result;
  cosmjs_fromBech32 : jsstring -> option Bech32Result
}.

(** The version bytes of [bitcoin.networks]. *)
Record Network := {
  pubKeyHash : Z;
  scriptHash : Z
}.

Definition networks_bitcoin : Network :=
  {| pubKeyHash := 0x00; scriptHash := 0x05 |}.

Definition networks_testnet : Network :=
  {| pubKeyHash := 0x6f; scriptHash := 0xc4 |}.

Inductive BitcoinEnv := mainnet | testnet.

Definition is_mainnet (env : BitcoinEnv) : bool :=
  match env with mainnet => true | testnet => false end.

Definition is_testnet (env : BitcoinEnv) : bool :=
  match env with mainnet => false | testnet => true end.

(** [isBitcoinAddressValid({ address, env })]: the outer [try] decodes
    Base58Check; its [catch] runs the bech32 attempt, whose own [catch]
    answers [false]. *)
Definition isBitcoinAddressValid (lib : Codecs)
  (address : jsstring) (env : BitcoinEnv) : bool :=
  match fromBase58Check lib address with
  | Some decoded =>
      let isTestnet :=
        (b58_version decoded =? pubKeyHash networks_testnet) ||
        (b58_version decoded =? scriptHash networks_testnet) in
      let isMainnet :=
        (b58_version decoded =? pubKeyHash networks_bitcoin) ||
        (b58_version decoded =? scriptHash networks_bitcoin) in
      if (is_mainnet env && isMainnet) || (is_testnet env && isTestnet)
      then true
      else false
  | None =>
      match bitcoin_fromBech32 lib address with
      | Some decoded =>
          let isTestnet :=
            streq (btc_prefix decoded) (lit "tb") ||
            streq (btc_prefix decoded) (lit "bcrt") in
          let isMainnet := streq (btc_prefix decoded) (lit "bc") in
          if (is_mainnet env && isMainnet) || (is_testnet env && isTestnet)
          then true
          else false
      | None => false
      end
  end.

(** [isCosmosAddressValid({ address, bech32Prefix })] *)
Definition isCosmosAddressValid (lib : Codecs)
  (address bech32Prefix : jsstring) : bool :=
  match cosmjs_fromBech32 lib address with
  | Some decoded =>
      if negb (streq (prefix decoded) bech32Prefix) then false
      else Z.of_nat (List.length (data decoded)) =? 20
  | None => false
  end.

(** [deriveCosmosAddress({ address, desiredBech32Prefix })]; it has no
    [try], so a throw of the decoder or of [cosmjsEncoding.toBech32] (given
    as [toBech32]) is a throw of the function, [None]. *)
Definition deriveCosmosAddress (lib : Codecs)
  (toBech32 : jsstring -> list Byte.byte -> option jsstring)
  (address desiredBech32Prefix : jsstring) : option jsstring :=
  match cosmjs_fromBech32 lib address with
  | Some decoded => toBech32 desiredBech32Prefix (data decoded)
  | None => None
  end.

End Address.

(* ================================================================== *)
(** ** packages/web/hooks/limit-orders/use-orderbook.ts                 *)
(* ================================================================== *)

Module Hooks.

(** [Dec] of @osmosis-labs/unit: a fixed-point decimal with 18 fractional
    digits, kept as its integer of atomic units. *)
Record Dec := { atomics : Z }.

(** [new Dec(n)] for an integer [n]. *)
Definition new_Dec (n : Z) : Dec := {| atomics := n * 10 ^ 18 |}.

Record Orderbook := {
  baseDenom : jsstring;
  quoteDenom : jsstring;
  contractAddress : jsstring;
  poolId : option jsstring
}.

Record Asset := {
  coinDenom : jsstring;
  coinMinimalDenom : jsstring
}.

Record Order := {
  orderbookAddress : jsstring;
  tick_id : Z;
  order_id : Z
}.

Record Page := {
  items : list Order;
  nextCursor : option Z
}.

Record InfiniteData := { pages : list Page }.

Record TRPCError := { message : jsstring }.

Record MakerFeeData := { makerFee : option Dec }.

Inductive OrderFilter := active | filled | historical | open.

(** Input of the two order queries. *)
Record OrdersInput := {
  userOsmoAddress : jsstring;
  limit : option Z;
  filter : option OrderFilter
}.

(** The options object handed to [useQuery] / [useInfiniteQuery]; an option
    the call site leaves out is [None]. *)
Record QueryOptions := {
  enabled : bool;
  getNextPageParam : option (Page -> option Z);
  initialCursor : option Z;
  refetchInterval : option Z;
  cacheTime : option Z;
  staleTime : option Z;
  refetchOnMount : option bool;
  keepPreviousData : option bool;
  abortOnUnmount : option bool;
  skipBatch : option bool
}.

(** Result of a plain query. *)
Module Query.
Record Result (D : Type) := {
  data : option D;
  isLoading : bool;
  error : option TRPCError
}.
Arguments data {D}.
Arguments isLoading {D}.
Arguments error {D}.
End Query.

(** Result of an infinite (paginated) query; [Fn] is the type of the
    callbacks the query client hands out. *)
Module InfiniteQuery.
Record Result (Fn : Type) := {
  data : option InfiniteData;
  isLoading : bool;
  fetchNextPage : Fn;
  isFetching : bool;
  isFetchingNextPage : bool;
  hasNextPage : option bool;
  refetch : Fn;
  isRefetching : bool
}.
Arguments data {Fn}.
Arguments isLoading {Fn}.
Arguments fetchNextPage {Fn}.
Arguments isFetching {Fn}.
Arguments isFetchingNextPage {Fn}.
Arguments hasNextPage {Fn}.
Arguments refetch {Fn}.
Arguments isRefetching {Fn}.
End InfiniteQuery.

Record Wallet := { address : jsstring }.

(** The collaborators the hooks call into: the typed RPC client, the
    feature-flag provider, the swap-asset hook and the account store. *)
Record Api (Fn : Type) := {
  getPools_useQuery : Query.Result (list Orderbook);
  getUserAssets_useInfiniteQuery : option (list (list Asset));
  getMakerFee_useQuery : jsstring -> QueryOptions -> Query.Result MakerFeeData;
  getAllOrdersSQS_useInfiniteQuery :
    OrdersInput -> QueryOptions -> InfiniteQuery.Result Fn;
  getAllOrders_useInfiniteQuery :
    OrdersInput -> QueryOptions -> InfiniteQuery.Result Fn;
  getClaimableOrders_useQuery :
    jsstring -> QueryOptions -> Query.Result (list Order);
  sqsActiveOrders : bool;
  useSwapAsset : jsstring -> list Asset -> option Asset;
  getWallet : option Wallet
}.
Arguments getPools_useQuery {Fn}.
Arguments getUserAssets_useInfiniteQuery {Fn}.
Arguments getMakerFee_useQuery {Fn}.
Arguments getAllOrdersSQS_useInfiniteQuery {Fn}.
Arguments getAllOrders_useInfiniteQuery {Fn}.
Arguments getClaimableOrders_useQuery {Fn}.
Arguments sqsActiveOrders {Fn}.
Arguments useSwapAsset {Fn}.
Arguments getWallet {Fn}.

(** [x ?? d] *)
Definition nullish {A} (x : option A) (d : A) : A :=
  match x with Some v => v | None => d end.

(** Options with only [enabled] given. *)
Definition only_enabled (e : bool) : QueryOptions :=
  {| enabled := e; getNextPageParam := None; initialCursor := None;
     refetchInterval := None; cacheTime := None; staleTime := None;
     refetchOnMount := None; keepPreviousData := None;
     abortOnUnmount := None; skipBatch := None |}.

(** Result of [useMakerFee]. *)
Module MakerFee.
Record Result := {
  makerFee : Dec;
  isLoading : bool;
  error : option TRPCError
}.
End MakerFee.

(** Result of [useOrderbook]. *)
Module UseOrderbook.
Record Result := {
  orderbook : option Orderbook;
  poolId : jsstring;
  contractAddress : jsstring;
  makerFee : Dec;
  isMakerFeeLoading : bool;
  isOrderbookLoading : bool;
  error : option jsstring
}.
End UseOrderbook.

(** Arguments of [useOrdersQuery]; a left-out optional argument is [None]. *)
Module OrdersArgs.
Record t := {
  userAddress : jsstring;
  pageSize : option Z;
  refetchInterval : option Z;
  filter : option OrderFilter
}.
End OrdersArgs.

(** Arguments of [useClaimableOrdersQuery] and
    [useOrderbookClaimableOrders]. *)
Module ClaimableArgs.
Record t := {
  userAddress : jsstring;
  disabled : option bool;
  refetchInterval : option Z
}.
End ClaimableArgs.

(** Result of [useClaimableOrdersQuery]. *)
Module ClaimableQuery.
Record Result := {
  data : option (list Order);
  isLoading : bool
}.
End ClaimableQuery.

(** One element of the array given to [sendMultiExecuteContractMsg]:
    [{ contractAddress, msg: { batch_claim: { orders } }, funds }]. *)
Module ExecuteMsg.
Record t := {
  contractAddress : jsstring;
  batch_claim_orders : list (Z * Z);
  funds : list (jsstring * jsstring)
}.
End ExecuteMsg.

(** The wallet is an external effect: the state threaded through
    [claimAllOrders] is the log of the submissions made so far. *)
Record Submission := {
  signer : Wallet;
  msgType : jsstring;
  msgs : list ExecuteMsg.t
}.

Definition World := list Submission.

(** [account.cosmwasm.sendMultiExecuteContractMsg(type, msgs)] *)
Definition sendMultiExecuteContractMsg
  (account : Wallet) (type : jsstring) (ms : list ExecuteMsg.t)
  (w : World) : World :=
  w ++ [ {| signer := account; msgType := type; msgs := ms |} ].

(** Result of [useOrderbookClaimableOrders]. *)
Module ClaimableOrders.
Record Result := {
  orders : list Order;
  count : Z;
  isLoading : bool;
  claimAllOrders : World -> World
}.
End ClaimableOrders.

(** [array.filter(Boolean)] on an array whose elements are objects or
    [undefined]. *)
Fixpoint filterBoolean {A} (l : list (option A)) : list A :=
  match l with
  | Some x :: r => x :: filterBoolean r
  | None :: r => filterBoolean r
  | [] => []
  end.

(** Truthiness of an optional string: [undefined] and [""] are falsy. *)
Definition truthy_opt (s : option jsstring) : bool :=
  match s with Some v => truthy v | None => false end.

(** The message built for one contract address inside [claimAllOrders]. *)
Definition claimMsgFor (orders : list Order) (contractAddress : jsstring)
  : option ExecuteMsg.t :=
  let ordersForAddress :=
    List.filter (fun o => streq (orderbookAddress o) contractAddress) orders in
  if Z.of_nat (List.length ordersForAddress) =? 0 then None
  else
    Some {| ExecuteMsg.contractAddress := contractAddress;
            ExecuteMsg.batch_claim_orders :=
              map (fun o => (tick_id o, order_id o)) ordersForAddress;
            ExecuteMsg.funds := [] |}.

(** The [msgs] array of [claimAllOrders]. *)
Definition claimMsgs (addresses : list jsstring) (orders : list Order)
  : list ExecuteMsg.t :=
  filterBoolean (map (claimMsgFor orders) addresses).

(** The [claimAllOrders] callback, over the values it closes over. *)
Definition claimAllOrders
  (account : option Wallet) (orders : option (list Order))
  (addresses : list jsstring) (w : World) : World :=
  match account, orders with
  | Some acc, Some os =>
      let ms := claimMsgs addresses os in
      if Z.of_nat (List.length ms) >? 0
      then sendMultiExecuteContractMsg acc (lit "executeWasm") ms w
      else w
  | _, _ => w
  end.

(** Result of [useOrderbookOrders].  [refetch] is what the [refetchOrders]
    callback does: the query callback it awaits, or nothing. *)
Module OrderbookOrders.
Record Result (Fn : Type) := {
  orders : list Order;
  isLoading : bool;
  fetchNextPage : Fn;
  isFetching : bool;
  isFetchingNextPage : bool;
  hasNextPage : option bool;
  refetch : option Fn;
  isRefetching : bool
}.
Arguments orders {Fn}.
Arguments isLoading {Fn}.
Arguments fetchNextPage {Fn}.
Arguments isFetching {Fn}.
Arguments isFetchingNextPage {Fn}.
Arguments hasNextPage {Fn}.
Arguments refetch {Fn}.
Arguments isRefetching {Fn}.
End OrderbookOrders.

(** [Array.from(new Set(xs))]: a set keeps the first occurrence of each
    value, in insertion order. *)
Definition set_add (acc : list jsstring) (x : jsstring) : list jsstring :=
  if existsb (streq x) acc then acc else acc ++ [x].

Definition array_from_set (xs : list jsstring) : list jsstring :=
  fold_left set_add xs [].

Section WithApi.

Context {Fn : Type} (api : Api Fn).

(** [useOrderbooks()] *)
Definition useOrderbooks : list Orderbook * bool :=
  let q := getPools_useQuery api in
  (nullish (Query.data q) [], Query.isLoading q).

(** [orderbooks.map(({ contractAddress }) => contractAddress)] *)
Definition addresses : list jsstring :=
  map contractAddress (fst useOrderbooks).

(** [useMakerFee({ orderbookAddress })] *)
Definition useMakerFee (orderbookAddress : jsstring) : MakerFee.Result :=
  let q :=
    getMakerFee_useQuery api orderbookAddress
      (only_enabled (truthy orderbookAddress)) in
  let makerFeeData := Query.data q in
  let isLoading := Query.isLoading q in
  let makerFee :=
    if isLoading then new_Dec 0
    else
      nullish
        (match makerFeeData with Some d => makerFee d | None => None end)
        (new_Dec 0) in
  {| MakerFee.makerFee := makerFee;
     MakerFee.isLoading := isLoading;
     MakerFee.error := Query.error q |}.

(** The predicate of [orderbooks.find] in [useOrderbook]. *)
Definition matches_pair (baseAsset quoteAsset : option Asset)
  (orderbook : Orderbook) : bool :=
  match baseAsset, quoteAsset with
  | Some b, Some q =>
      (streq (baseDenom orderbook) (coinDenom b) ||
       streq (baseDenom orderbook) (coinMinimalDenom b)) &&
      (streq (quoteDenom orderbook) (coinDenom q) ||
       streq (quoteDenom orderbook) (coinMinimalDenom q))
  | _, _ => false
  end.

(** The [error] memo of [useOrderbook]. *)
Definition orderbookError (isOrderbookLoading : bool)
  (orderbook : option Orderbook) (makerFeeError : option TRPCError)
  : option jsstring :=
  if negb isOrderbookLoading &&
     match orderbook with
     | None => true
     | Some ob =>
         negb (truthy_opt (poolId ob)) ||
         match poolId ob with Some p => streq p (lit "") | None => false end
     end
  then Some (lit "errors.noOrderbook")
  else
    match makerFeeError with
    | Some e => Some (message e)
    | None => None
    end.

(** [useOrderbook({ baseDenom, quoteDenom })] *)
Definition useOrderbook (baseDenom' quoteDenom' : jsstring)
  : UseOrderbook.Result :=
  let '(orderbooks, isOrderbookLoading) := useOrderbooks in
  let selectableAssets :=
    nullish (option_map (@List.concat Asset) (getUserAssets_useInfiniteQuery api))
            [] in
  let baseAsset := useSwapAsset api baseDenom' selectableAssets in
  let quoteAsset := useSwapAsset api quoteDenom' selectableAssets in
  let orderbook := find (matches_pair baseAsset quoteAsset) orderbooks in
  let fee :=
    useMakerFee (nullish (option_map contractAddress orderbook) (lit "")) in
  {| UseOrderbook.orderbook := orderbook;
     UseOrderbook.poolId :=
       nullish (match orderbook with Some ob => poolId ob | None => None end)
               (lit "");
     UseOrderbook.contractAddress :=
       nullish (option_map contractAddress orderbook) (lit "");
     UseOrderbook.makerFee := MakerFee.makerFee fee;
     UseOrderbook.isMakerFeeLoading := MakerFee.isLoading fee;
     UseOrderbook.isOrderbookLoading := isOrderbookLoading;
     UseOrderbook.error :=
       orderbookError isOrderbookLoading orderbook (MakerFee.error fee) |}.

(** The options shared by the paginated order queries. *)
Definition pagedOptions (interval : Z) (cache : bool) (isEnabled : bool)
  : QueryOptions :=
  {| enabled := isEnabled;
     getNextPageParam := Some nextCursor;
     initialCursor := Some 0;
     refetchInterval := Some interval;
     cacheTime := if cache then Some interval else None;
     staleTime := if cache then Some interval else None;
     refetchOnMount := Some true;
     keepPreviousData := Some false;
     abortOnUnmount := Some true;
     skipBatch := Some true |}.

(** Input and options of the SQS call in [useOrdersQuery]. *)
Definition ordersSQSInput (a : OrdersArgs.t) : OrdersInput :=
  {| userOsmoAddress := OrdersArgs.userAddress a;
     limit := Some (nullish (OrdersArgs.pageSize a) 10);
     filter := OrdersArgs.filter a |}.

Definition ordersSQSOptions (a : OrdersArgs.t) : QueryOptions :=
  pagedOptions (nullish (OrdersArgs.refetchInterval a) 10000) true
    (truthy (OrdersArgs.userAddress a) &&
     (Z.of_nat (List.length addresses) >? 0) &&
     sqsActiveOrders api).

(** Input and options of the node call in [useOrdersQuery]. *)
Definition ordersNodeInput (a : OrdersArgs.t) : OrdersInput :=
  {| userOsmoAddress := OrdersArgs.userAddress a;
     limit := Some (nullish (OrdersArgs.pageSize a) 10);
     filter := None |}.

Definition ordersNodeOptions (a : OrdersArgs.t) : QueryOptions :=
  pagedOptions (nullish (OrdersArgs.refetchInterval a) 10000) true
    (truthy (OrdersArgs.userAddress a) &&
     (Z.of_nat (List.length addresses) >? 0) &&
     negb (sqsActiveOrders api)).

(** [useOrdersQuery({ userAddress, pageSize, refetchInterval, filter })] *)
Definition useOrdersQuery (a : OrdersArgs.t) : InfiniteQuery.Result Fn :=
  let sqsActiveOrders := sqsActiveOrders api in
  let sqs :=
    getAllOrdersSQS_useInfiniteQuery api
      (ordersSQSInput a) (ordersSQSOptions a) in
  let node :=
    getAllOrders_useInfiniteQuery api
      (ordersNodeInput a) (ordersNodeOptions a) in
  {| InfiniteQuery.data :=
       if sqsActiveOrders then InfiniteQuery.data sqs
       else InfiniteQuery.data node;
     InfiniteQuery.isLoading :=
       if sqsActiveOrders then InfiniteQuery.isLoading sqs
       else InfiniteQuery.isLoading node;
     InfiniteQuery.fetchNextPage :=
       if sqsActiveOrders then InfiniteQuery.fetchNextPage sqs
       else InfiniteQuery.fetchNextPage node;
     InfiniteQuery.isFetching :=
       if sqsActiveOrders then InfiniteQuery.isFetching sqs
       else InfiniteQuery.isFetching node;
     InfiniteQuery.isFetchingNextPage :=
       if sqsActiveOrders then InfiniteQuery.isFetchingNextPage sqs
       else InfiniteQuery.isFetchingNextPage node;
     InfiniteQuery.hasNextPage :=
       if sqsActiveOrders then InfiniteQuery.hasNextPage sqs
       else InfiniteQuery.hasNextPage node;
     InfiniteQuery.refetch :=
       if sqsActiveOrders then InfiniteQuery.refetch sqs
       else InfiniteQuery.refetch node;
     InfiniteQuery.isRefetching :=
       if sqsActiveOrders then InfiniteQuery.isRefetching sqs
       else InfiniteQuery.isRefetching node |}.

(** Input and options of the SQS call in [useClaimableOrdersQuery]. *)
Definition claimableSQSInput (a : ClaimableArgs.t) : OrdersInput :=
  {| userOsmoAddress := ClaimableArgs.userAddress a;
     limit := Some 100;
     filter := Some filled |}.

Definition claimableSQSOptions (a : ClaimableArgs.t) : QueryOptions :=
  pagedOptions (nullish (ClaimableArgs.refetchInterval a) 5000) false
    (truthy (ClaimableArgs.userAddress a) &&
     (Z.of_nat (List.length addresses) >? 0) &&
     negb (nullish (ClaimableArgs.disabled a) false) &&
     sqsActiveOrders api).

(** Options of the node call in [useClaimableOrdersQuery]. *)
Definition claimableNodeOptions (a : ClaimableArgs.t) : QueryOptions :=
  {| enabled :=
       truthy (ClaimableArgs.userAddress a) &&
       (Z.of_nat (List.length addresses) >? 0) &&
       negb (nullish (ClaimableArgs.disabled a) false) &&
       negb (sqsActiveOrders api);
     getNextPageParam := None;
     initialCursor := None;
     refetchInterval := None;
     cacheTime := None;
     staleTime := None;
     refetchOnMount := Some true;
     keepPreviousData := Some false;
     abortOnUnmount := Some true;
     skipBatch := Some true |}.

(** [useClaimableOrdersQuery({ userAddress, disabled, refetchInterval })] *)
Definition useClaimableOrdersQuery (a : ClaimableArgs.t)
  : ClaimableQuery.Result :=
  let sqsActiveOrders := sqsActiveOrders api in
  let sqs :=
    getAllOrdersSQS_useInfiniteQuery api
      (claimableSQSInput a) (claimableSQSOptions a) in
  let node :=
    getClaimableOrders_useQuery api
      (ClaimableArgs.userAddress a) (claimableNodeOptions a) in
  let claimableOrders := InfiniteQuery.data sqs in
  let nodeClaimableOrders := Query.data node in
  let orders :=
    if negb sqsActiveOrders then nodeClaimableOrders
    else
      Some (nullish
              (option_map (fun d => flat_map items (pages d)) claimableOrders)
              []) in
  {| ClaimableQuery.data := orders;
     ClaimableQuery.isLoading :=
       if sqsActiveOrders then InfiniteQuery.isLoading sqs
       else Query.isLoading node |}.

(** [useOrderbookClaimableOrders({ userAddress, disabled, refetchInterval })] *)
Definition useOrderbookClaimableOrders (a : ClaimableArgs.t)
  : ClaimableOrders.Result :=
  let account := getWallet api in
  let q := useClaimableOrdersQuery a in
  let orders := ClaimableQuery.data q in
  {| ClaimableOrders.orders := nullish orders [];
     ClaimableOrders.count :=
       nullish (option_map (fun os => Z.of_nat (List.length os)) orders) 0;
     ClaimableOrders.isLoading := ClaimableQuery.isLoading q;
     ClaimableOrders.claimAllOrders :=
       claimAllOrders account orders addresses |}.

(** [useOrderbookOrders({ userAddress, pageSize, refetchInterval, filter })]:
    the defaults are applied here and the values handed on. *)
Definition useOrderbookOrders (a : OrdersArgs.t) : OrderbookOrders.Result Fn :=
  let q :=
    useOrdersQuery
      {| OrdersArgs.userAddress := OrdersArgs.userAddress a;
         OrdersArgs.pageSize := Some (nullish (OrdersArgs.pageSize a) 10);
         OrdersArgs.refetchInterval :=
           Some (nullish (OrdersArgs.refetchInterval a) 10000);
         OrdersArgs.filter := OrdersArgs.filter a |} in
  let orders := InfiniteQuery.data q in
  let allOrders :=
    nullish (option_map (fun d => flat_map items (pages d)) orders) [] in
  let refetchOrders :=
    if InfiniteQuery.isRefetching q then None
    else Some (InfiniteQuery.refetch q) in
  {| OrderbookOrders.orders := allOrders;
     OrderbookOrders.isLoading := InfiniteQuery.isLoading q;
     OrderbookOrders.fetchNextPage := InfiniteQuery.fetchNextPage q;
     OrderbookOrders.isFetching := InfiniteQuery.isFetching q;
     OrderbookOrders.isFetchingNextPage := InfiniteQuery.isFetchingNextPage q;
     OrderbookOrders.hasNextPage := InfiniteQuery.hasNextPage q;
     OrderbookOrders.refetch := refetchOrders;
     OrderbookOrders.isRefetching := InfiniteQuery.isRefetching q |}.

(** The [selectableBaseDenoms] memo of [useOrderbookSelectableDenoms]. *)
Definition selectableBaseDenoms : list jsstring :=
  array_from_set (map baseDenom (fst useOrderbooks)).

(** Its [selectableAssets] memo, over the data of its own
    [getUserAssets] query. *)
Definition selectableAssets (selectableAssetPages : option (list (list Asset)))
  : list Asset :=
  nullish (option_map (@List.concat Asset) selectableAssetPages) [].

(** Its [selectableBaseAssets] memo; [getAssetFromAssetList] is the lookup
    in the generated asset lists. *)
Definition selectableBaseAssets
  (selectableAssetPages : option (list (list Asset)))
  (getAssetFromAssetList : jsstring -> option Asset) : list Asset :=
  filterBoolean
    (map
       (fun denom =>
          match
            find (fun asset => streq (coinMinimalDenom asset) denom)
                 (selectableAssets selectableAssetPages)
          with
          | Some existingAsset => Some existingAsset
          | None => getAssetFromAssetList denom
          end)
       selectableBaseDenoms).

End WithApi.

End Hooks.

(* ================================================================== *)
(** ** Statements about the string utilities                       *)
(* ================================================================== *)

Module StringSpec.

Import StringUtils.

(** [truncate]: unchanged up to the breakpoint, else the first [num] units
    and the delimiter; the result has at most [num + 3] units. *)
Definition truncate_bounded (str : jsstring) (num : Z) : Prop :=
  (len str <= num -> truncate str (Some num) = str) /\
  (num < len str ->
   truncate str (Some num) = firstn (Z.to_nat num) str ++ lit "...") /\
  len (truncate str (Some num)) <= num + 3.

(** The number [x] has the integer value [z]. *)
Definition integer_valued (x : number) (z : Z) : Prop :=
  match x with
  | Finite q => (q == inject_Z z)%Q
  | _ => False
  end.

(** [shorten] for a [prefixLength] of value [p] and a [suffixLength] of
    value [s]: empty on empty input, unchanged up to [p + s] units, else
    the first [p] units, the delimiter and the last [s] units; the result
    has at most [p + s + delim.length] units. *)
Definition shorten_bounded (string : jsstring) (opts : option ShortenOpts)
  (p s : Z) : Prop :=
  let d := opt_field opts delim (lit "...") in
  (string = [] -> shorten string opts = []) /\
  (len string <= p + s -> shorten string opts = string) /\
  (p + s < len string ->
   shorten string opts =
   firstn (Z.to_nat p) string ++ d ++ skipn (Z.to_nat (len string - s)) string)
  /\
  len (shorten string opts) <= p + s + len d.

(** [ellipsisText]: empty on empty input; when the input is longer than
    [maxLength], a prefix of the trimmed input followed by the delimiter, of
    at most [maxLength] units; otherwise the trimmed input. *)
Definition ellipsisText_bounded (str : jsstring) (maxLength : Z) : Prop :=
  (str = [] -> ellipsisText str maxLength = []) /\
  (str <> [] -> maxLength < len str ->
   (exists p rest,
      trim str = p ++ rest /\ ellipsisText str maxLength = p ++ lit "...") /\
   len (ellipsisText str maxLength) <= maxLength) /\
  (str <> [] -> len str <= maxLength -> ellipsisText str maxLength = trim str).

(** A string that begins neither with a scheme nor with [www.]. *)
Definition no_leading_scheme_www (r : jsstring) : Prop :=
  starts_with (lit "http://") r = false /\
  starts_with (lit "https://") r = false /\
  starts_with (lit "www.") r = false.

(** A string that carries no scheme, no [www.] and no trailing slash. *)
Definition normalized (r : jsstring) : Prop :=
  no_leading_scheme_www r /\ ends_with (lit "/") r = false.


Definition idempotent (f : jsstring -> jsstring) (s : jsstring) : Prop :=
  f (f s) = f s.

(** A string without ASCII capitals. *)
Definition no_capitals (s : jsstring) : Prop :=
  Forall (fun c => is_AZ c = false) s.

(** The leading parts [normalizeUrl] can take away. *)
Definition removable_prefixes : list jsstring :=
  [lit ""; lit "http://"; lit "https://"; lit "www.";
   lit "http://www."; lit "https://www."].

(** The first code unit, if there is one, is not white space. *)
Definition no_leading_space (s : jsstring) : Prop :=
  match s with
  | c :: _ => is_space c = false
  | [] => True
  end.

(** A string without a dot. *)
Definition no_dot (s : jsstring) : Prop :=
  Forall (fun c => c <> "."%char) s.

End StringSpec.

(* ================================================================== *)
(** ** Statements about the order-book hooks                       *)
(* ================================================================== *)

Module HookSpec.

Import Hooks.

(** The [getMakerFee] query issued for an order-book address. *)
Definition makerFeeQuery {Fn} (api : Api Fn) (orderbookAddress : jsstring)
  : Query.Result MakerFeeData :=
  getMakerFee_useQuery api orderbookAddress
    (only_enabled (truthy orderbookAddress)).

(** An API whose maker-fee query has loaded a fee of 0.001. *)
Definition api_with_fee : Api unit :=
  {| getPools_useQuery :=
       {| Query.data := None; Query.isLoading := true; Query.error := None |};
     getUserAssets_useInfiniteQuery := None;
     getMakerFee_useQuery := fun _ _ =>
       {| Query.data := Some {| makerFee := Some {| atomics := 10 ^ 15 |} |};
          Query.isLoading := false; Query.error := None |};
     getAllOrdersSQS_useInfiniteQuery := fun _ _ =>
       {| InfiniteQuery.data := None; InfiniteQuery.isLoading := true;
          InfiniteQuery.fetchNextPage := tt; InfiniteQuery.isFetching := false;
          InfiniteQuery.isFetchingNextPage := false;
          InfiniteQuery.hasNextPage := None; InfiniteQuery.refetch := tt;
          InfiniteQuery.isRefetching := false |};
     getAllOrders_useInfiniteQuery := fun _ _ =>
       {| InfiniteQuery.data := None; InfiniteQuery.isLoading := true;
          InfiniteQuery.fetchNextPage := tt; InfiniteQuery.isFetching := false;
          InfiniteQuery.isFetchingNextPage := false;
          InfiniteQuery.hasNextPage := None; InfiniteQuery.refetch := tt;
          InfiniteQuery.isRefetching := false |};
     getClaimableOrders_useQuery := fun _ _ =>
       {| Query.data := None; Query.isLoading := true; Query.error := None |};
     sqsActiveOrders := true;
     useSwapAsset := fun _ _ => None;
     getWallet := None |}.

(** What [useOrderbook] looks the order book up with. *)
Definition pairPredicate {Fn} (api : Api Fn) (baseDenom' quoteDenom' : jsstring)
  : Orderbook -> bool :=
  let selectableAssets :=
    nullish (option_map (@List.concat Asset)
               (getUserAssets_useInfiniteQuery api)) [] in
  matches_pair (useSwapAsset api baseDenom' selectableAssets)
               (useSwapAsset api quoteDenom' selectableAssets).

(** An API that has finished loading an empty list of order books and whose
    maker-fee query failed. *)
Definition api_no_books : Api unit :=
  {| getPools_useQuery :=
       {| Query.data := Some []; Query.isLoading := false;
          Query.error := None |};
     getUserAssets_useInfiniteQuery := None;
     getMakerFee_useQuery := fun _ _ =>
       {| Query.data := None; Query.isLoading := false;
          Query.error := Some {| message := lit "fetch failed" |} |};
     getAllOrdersSQS_useInfiniteQuery :=
       getAllOrdersSQS_useInfiniteQuery api_with_fee;
     getAllOrders_useInfiniteQuery :=
       getAllOrders_useInfiniteQuery api_with_fee;
     getClaimableOrders_useQuery := getClaimableOrders_useQuery api_with_fee;
     sqsActiveOrders := true;
     useSwapAsset := fun _ _ => None;
     getWallet := None |}.

(** [addresses.length > 0] *)
Definition has_addresses {Fn} (api : Api Fn) : bool :=
  Z.of_nat (List.length (addresses api)) >? 0.

(** The two calls [useOrdersQuery] makes. *)
Definition sqsOrders {Fn} (api : Api Fn) (a : OrdersArgs.t)
  : InfiniteQuery.Result Fn :=
  getAllOrdersSQS_useInfiniteQuery api (ordersSQSInput a) (ordersSQSOptions api a).

Definition nodeOrders {Fn} (api : Api Fn) (a : OrdersArgs.t)
  : InfiniteQuery.Result Fn :=
  getAllOrders_useInfiniteQuery api (ordersNodeInput a) (ordersNodeOptions api a).

(** The two calls [useClaimableOrdersQuery] makes. *)
Definition sqsClaimable {Fn} (api : Api Fn) (a : ClaimableArgs.t)
  : InfiniteQuery.Result Fn :=
  getAllOrdersSQS_useInfiniteQuery api
    (claimableSQSInput a) (claimableSQSOptions api a).

Definition nodeClaimable {Fn} (api : Api Fn) (a : ClaimableArgs.t)
  : Query.Result (list Order) :=
  getClaimableOrders_useQuery api
    (ClaimableArgs.userAddress a) (claimableNodeOptions api a).

(** As specified for [useOrdersQuery]: the flag picks the
    backend whose fields are returned, and that backend's query is the one
    that is enabled. *)
Definition flag_selects_enabled_backend {Fn} (api : Api Fn)
  (a : OrdersArgs.t) : Prop :=
  (sqsActiveOrders api = true ->
   useOrdersQuery api a = sqsOrders api a /\
   enabled (ordersSQSOptions api a) = true /\
   enabled (ordersNodeOptions api a) = false) /\
  (sqsActiveOrders api = false ->
   useOrdersQuery api a = nodeOrders api a /\
   enabled (ordersNodeOptions api a) = true /\
   enabled (ordersSQSOptions api a) = false).

(** What holds of [useOrdersQuery]: the other backend is disabled, and the
    selected one is enabled exactly under the common guard. *)
Definition flag_selects_backend {Fn} (api : Api Fn) (a : OrdersArgs.t)
  : Prop :=
  let guard := truthy (OrdersArgs.userAddress a) && has_addresses api in
  (sqsActiveOrders api = true ->
   useOrdersQuery api a = sqsOrders api a /\
   enabled (ordersSQSOptions api a) = guard /\
   enabled (ordersNodeOptions api a) = false) /\
  (sqsActiveOrders api = false ->
   useOrdersQuery api a = nodeOrders api a /\
   enabled (ordersNodeOptions api a) = guard /\
   enabled (ordersSQSOptions api a) = false).

(** What holds of [useClaimableOrdersQuery]. *)
Definition flag_selects_claimable_backend {Fn} (api : Api Fn)
  (a : ClaimableArgs.t) : Prop :=
  let guard :=
    truthy (ClaimableArgs.userAddress a) && has_addresses api &&
    negb (nullish (ClaimableArgs.disabled a) false) in
  let r := useClaimableOrdersQuery api a in
  (sqsActiveOrders api = true ->
   ClaimableQuery.isLoading r = InfiniteQuery.isLoading (sqsClaimable api a) /\
   ClaimableQuery.data r =
     Some match InfiniteQuery.data (sqsClaimable api a) with
          | Some d => flat_map items (pages d)
          | None => []
          end /\
   enabled (claimableSQSOptions api a) = guard /\
   enabled (claimableNodeOptions api a) = false) /\
  (sqsActiveOrders api = false ->
   ClaimableQuery.isLoading r = Query.isLoading (nodeClaimable api a) /\
   ClaimableQuery.data r = Query.data (nodeClaimable api a) /\
   enabled (claimableNodeOptions api a) = guard /\
   enabled (claimableSQSOptions api a) = false).

(** An API with one known order book and the SQS flag on. *)
Definition api_sqs_on : Api unit :=
  {| getPools_useQuery :=
       {| Query.data :=
            Some [ {| baseDenom := lit "OSMO"; quoteDenom := lit "USDC";
                      contractAddress := lit "osmo1book";
                      poolId := Some (lit "1904") |} ];
          Query.isLoading := false; Query.error := None |};
     getUserAssets_useInfiniteQuery := None;
     getMakerFee_useQuery := getMakerFee_useQuery api_with_fee;
     getAllOrdersSQS_useInfiniteQuery :=
       getAllOrdersSQS_useInfiniteQuery api_with_fee;
     getAllOrders_useInfiniteQuery :=
       getAllOrders_useInfiniteQuery api_with_fee;
     getClaimableOrders_useQuery := getClaimableOrders_useQuery api_with_fee;
     sqsActiveOrders := true;
     useSwapAsset := fun _ _ => None;
     getWallet := Some {| address := lit "osmo1user" |} |}.

Definition orders_of (user : jsstring) : OrdersArgs.t :=
  {| OrdersArgs.userAddress := user; OrdersArgs.pageSize := None;
     OrdersArgs.refetchInterval := None; OrdersArgs.filter := None |}.

Definition claimable_of (user : jsstring) : ClaimableArgs.t :=
  {| ClaimableArgs.userAddress := user; ClaimableArgs.disabled := None;
     ClaimableArgs.refetchInterval := None |}.

(** The same API with the flag off. *)
Definition api_sqs_off : Api unit :=
  {| getPools_useQuery := getPools_useQuery api_sqs_on;
     getUserAssets_useInfiniteQuery := None;
     getMakerFee_useQuery := getMakerFee_useQuery api_sqs_on;
     getAllOrdersSQS_useInfiniteQuery :=
       getAllOrdersSQS_useInfiniteQuery api_sqs_on;
     getAllOrders_useInfiniteQuery := getAllOrders_useInfiniteQuery api_sqs_on;
     getClaimableOrders_useQuery := getClaimableOrders_useQuery api_sqs_on;
     sqsActiveOrders := false;
     useSwapAsset := useSwapAsset api_sqs_on;
     getWallet := getWallet api_sqs_on |}.

(** [orders] has an order that belongs to the contract address [a]. *)
Definition has_order_for (orders : list Order) (a : jsstring) : bool :=
  existsb (fun o => streq (orderbookAddress o) a) orders.

(** The orders of [orders] that belong to [a]. *)
Definition orders_for (orders : list Order) (a : jsstring) : list Order :=
  List.filter (fun o => streq (orderbookAddress o) a) orders.

(** The messages of [ms] addressed to [a]. *)
Definition msgs_for (ms : list ExecuteMsg.t) (a : jsstring)
  : list ExecuteMsg.t :=
  List.filter (fun m => streq (ExecuteMsg.contractAddress m) a) ms.

(** Each message is a [batch_claim] of exactly the orders of its contract
    address, in their order, with empty funds. *)
Definition well_formed_msgs (addrs : list jsstring) (orders : list Order)
  (ms : list ExecuteMsg.t) : Prop :=
  forall m, In m ms ->
    In (ExecuteMsg.contractAddress m) addrs /\
    has_order_for orders (ExecuteMsg.contractAddress m) = true /\
    ExecuteMsg.batch_claim_orders m =
      map (fun o => (tick_id o, order_id o))
          (orders_for orders (ExecuteMsg.contractAddress m)) /\
    ExecuteMsg.funds m = [].

(** Exactly one message for each contract address that has an order. *)
Definition one_msg_per_address (addrs : list jsstring) (orders : list Order)
  (ms : list ExecuteMsg.t) : Prop :=
  forall a, In a addrs -> has_order_for orders a = true ->
            List.length (msgs_for ms a) = 1%nat.

(** The cases in which [claimAllOrders] has nothing to submit: no connected
    account, absent claimable-orders data, or no claimable order that
    belongs to a known order-book address. *)
Definition nothing_to_claim (account : option Wallet)
  (orders : option (list Order)) (addrs : list jsstring) : Prop :=
  account = None \/
  orders = None \/
  exists os, orders = Some os /\
             forall a, In a addrs -> has_order_for os a = false.

(** The single submission [claimAllOrders] makes. *)
Definition submission (acc : Wallet) (ms : list ExecuteMsg.t) : Submission :=
  {| signer := acc; msgType := lit "executeWasm"; msgs := ms |}.

(** As specified: for a connected account and a non-empty
    list of claimable orders, the messages are built per address and all
    submitted in one call. *)
Definition claims_submitted_once (acc : Wallet) (orders : list Order)
  (addrs : list jsstring) (w : World) : Prop :=
  orders <> [] ->
  let ms := claimMsgs addrs orders in
  well_formed_msgs addrs orders ms /\
  one_msg_per_address addrs orders ms /\
  claimAllOrders (Some acc) (Some orders) addrs w = w ++ [submission acc ms].

Definition order_at (book : jsstring) (tick id : Z) : Order :=
  {| orderbookAddress := book; tick_id := tick; order_id := id |}.

Definition alice : Wallet := {| address := lit "osmo1user" |}.

(** The same arguments with another [filter]. *)
Definition with_filter (a : OrdersArgs.t) (f : option OrderFilter)
  : OrdersArgs.t :=
  {| OrdersArgs.userAddress := OrdersArgs.userAddress a;
     OrdersArgs.pageSize := OrdersArgs.pageSize a;
     OrdersArgs.refetchInterval := OrdersArgs.refetchInterval a;
     OrdersArgs.filter := f |}.

(** The items of all pages, in order; nothing when the data is absent. *)
Definition all_items (d : option InfiniteData) : list Order :=
  match d with
  | Some d => flat_map items (pages d)
  | None => []
  end.

(** The order belongs to one of the known order books. *)
Definition on_known_book (addrs : list jsstring) (o : Order) : bool :=
  existsb (streq (orderbookAddress o)) addrs.

(** The [tick_id, order_id] pair of an order. *)
Definition claim_pair (o : Order) : Z * Z := (tick_id o, order_id o).

(** All pairs of a message list, message after message. *)
Definition claimed_pairs (ms : list ExecuteMsg.t) : list (Z * Z) :=
  List.concat (map ExecuteMsg.batch_claim_orders ms).

(** A submission as [claimAllOrders] makes it for [account]: signed by the
    account, of type [executeWasm], with at least one message, each one
    with at least one pair and no funds. *)
Definition proper_submission (account : option Wallet) (s : Submission)
  : Prop :=
  account = Some (signer s) /\
  msgType s = lit "executeWasm" /\
  msgs s <> [] /\
  forall m, In m (msgs s) ->
            ExecuteMsg.batch_claim_orders m <> [] /\ ExecuteMsg.funds m = [].

(** How [selectableBaseAssets] resolves one denom. *)
Definition user_asset_for (userAssets : list Asset) (denom : jsstring)
  : option Asset :=
  find (fun asset => streq (coinMinimalDenom asset) denom) userAssets.

(** The API of [api_sqs_on] with a swap-asset hook that resolves every
    denom to an asset of that name. *)
Definition api_resolving : Api unit :=
  {| getPools_useQuery := getPools_useQuery api_sqs_on;
     getUserAssets_useInfiniteQuery := None;
     getMakerFee_useQuery := getMakerFee_useQuery api_sqs_on;
     getAllOrdersSQS_useInfiniteQuery :=
       getAllOrdersSQS_useInfiniteQuery api_sqs_on;
     getAllOrders_useInfiniteQuery := getAllOrders_useInfiniteQuery api_sqs_on;
     getClaimableOrders_useQuery := getClaimableOrders_useQuery api_sqs_on;
     sqsActiveOrders := true;
     useSwapAsset := fun denom _ =>
       Some {| coinDenom := denom; coinMinimalDenom := denom |};
     getWallet := getWallet api_sqs_on |}.

End HookSpec.

(* ================================================================== *)
(** ** Statements about the address validators                     *)
(* ================================================================== *)

Module AddressSpec.

Import Address.

(** The Base58Check version bytes and bech32 prefixes of an environment. *)
Definition version_of (env : BitcoinEnv) (v : Z) : Prop :=
  match env with
  | mainnet =>
      v = pubKeyHash networks_bitcoin \/ v = scriptHash networks_bitcoin
  | testnet =>
      v = pubKeyHash networks_testnet \/ v = scriptHash networks_testnet
  end.

Definition prefix_of (env : BitcoinEnv) (p : jsstring) : Prop :=
  match env with
  | mainnet => p = lit "bc"
  | testnet => p = lit "tb" \/ p = lit "bcrt"
  end.

Definition base58_accepts (lib : Codecs) (env : BitcoinEnv)
  (address : jsstring) : Prop :=
  exists d, fromBase58Check lib address = Some d /\
            version_of env (b58_version d).

Definition bech32_accepts (lib : Codecs) (env : BitcoinEnv)
  (address : jsstring) : Prop :=
  exists d, bitcoin_fromBech32 lib address = Some d /\
            prefix_of env (btc_prefix d).

(** As specified: valid iff one of the two decodings
    succeeds with a version byte or prefix of the environment. *)
Definition bitcoin_valid_iff_either (lib : Codecs) (env : BitcoinEnv)
  (address : jsstring) : Prop :=
  isBitcoinAddressValid lib address env = true <->
  base58_accepts lib env address \/ bech32_accepts lib env address.

(** What holds: bech32 is consulted only when Base58Check decoding
    throws. *)
Definition bitcoin_valid_iff_in_order (lib : Codecs) (env : BitcoinEnv)
  (address : jsstring) : Prop :=
  isBitcoinAddressValid lib address env = true <->
  base58_accepts lib env address \/
  (fromBase58Check lib address = None /\ bech32_accepts lib env address).

Definition cosmos_valid_iff (lib : Codecs) (address bech32Prefix : jsstring)
  : Prop :=
  isCosmosAddressValid lib address bech32Prefix = true <->
  exists d, cosmjs_fromBech32 lib address = Some d /\
            prefix d = bech32Prefix /\
            List.length (data d) = 20%nat.

(** Sample strings. *)
Definition genesis_address : jsstring :=
  lit "1A1zP1eP5QGefi2DMPTfTL5SLmv7DivfNa".

Definition testnet_address : jsstring :=
  lit "mipcBbFg9gMiCh81Kj8tqqdgoZub1ZJRfn".

Definition segwit_address : jsstring :=
  lit "bc1qw508d6qejxtdg4y5r3zarvary0c5xw7kv8f3t4".

Definition osmo_address : jsstring :=
  lit "osmo1w508d6qejxtdg4y5r3zarvary0c5xw7kjxy2e2".

Definition twofold_address : jsstring :=
  lit "bc1q2jepgsh7xd4uytn6z3xaw69f2zzn6p".

Import Byte.

(** The decodings that the three library functions give for the sample
    strings used below: the Bitcoin genesis address, a testnet address, the
    BIP-173 sample segwit address, a Cosmos address with prefix [osmo], and
    one string that is well-formed both as Base58Check (version byte 85)
    and as bech32 (prefix [bc]).  The table stands for the libraries on
    these strings only; it answers "throws" everywhere else. *)
Definition sample_codecs : Codecs :=
  {| fromBase58Check := fun s =>
       if streq s genesis_address then
         Some {| b58_version := 0;
                 b58_hash := [x62; xe9; x07; xb1; x5c; xbf; x27; xd5; x42; x53;
                              x99; xeb; xf6; xf0; xfb; x50; xeb; xb8; x8f; x18] |}
       else if streq s testnet_address then
         Some {| b58_version := 111;
                 b58_hash := [x24; x3f; x13; x94; xf4; x45; x54; xf4; xce; x3f;
                              xd6; x86; x49; xc1; x9a; xdc; x48; x3c; xe9; x24] |}
       else if streq s twofold_address then
         Some {| b58_version := 85;
                 b58_hash := [xff; x6c; x8a; x99; x32; xa8; xf5; x04; xba; x4d;
                              x55; x7b; x12; xfd; x78; xd6; x98; xef; x79; x1e] |}
       else None;
     bitcoin_fromBech32 := fun s =>
       if streq s segwit_address then
         Some {| btc_version := 0; btc_prefix := lit "bc";
                 btc_data := [x75; x1e; x76; xe8; x19; x91; x96; xd4; x54; x94;
                              x1c; x45; xd1; xb3; xa3; x23; xf1; x43; x3b; xd6] |}
       else if streq s twofold_address then
         Some {| btc_version := 0; btc_prefix := lit "bc";
                 btc_data := [x54; xb2; x14; x42; xfe; x33; x6b; xc2; x2e; x7a;
                              x14; x4d; xd7; x68; xa9] |}
       else None;
     cosmjs_fromBech32 := fun s =>
       if streq s osmo_address then
         Some {| prefix := lit "osmo";
                 data := [x75; x1e; x76; xe8; x19; x91; x96; xd4; x54; x94;
                          x1c; x45; xd1; xb3; xa3; x23; xf1; x43; x3b; xd6] |}
       else None |}.

(** [a === b] on byte arrays, element by element. *)
Definition bytes_eq (a b : list Byte.byte) : bool :=
  if list_eq_dec Byte.byte_eq_dec a b then true else false.

Definition cosmos_address : jsstring :=
  lit "cosmos1w508d6qejxtdg4y5r3zarvary0c5xw7k6ah60c".

(** The 20 bytes that [osmo_address] and [cosmos_address] both carry. *)
Definition sample_data : list Byte.byte :=
  [x75; x1e; x76; xe8; x19; x91; x96; xd4; x54; x94;
   x1c; x45; xd1; xb3; xa3; x23; xf1; x43; x3b; xd6].

(** [sample_codecs] with the decoding of [cosmos_address] added. *)
Definition cosmos_codecs : Codecs :=
  {| fromBase58Check := fromBase58Check sample_codecs;
     bitcoin_fromBech32 := bitcoin_fromBech32 sample_codecs;
     cosmjs_fromBech32 := fun s =>
       if streq s cosmos_address then
         Some {| prefix := lit "cosmos"; data := sample_data |}
       else cosmjs_fromBech32 sample_codecs s |}.

(** Rows of [cosmjsEncoding.toBech32] for [sample_data]: the encoder
    lower-cases the prefix, so a prefix that is [osmo] or [cosmos] up to
    case gives the address of that prefix.  The table has these rows only;
    for every other input it answers "throws", which the library does
    not. *)
Definition sample_toBech32 (pfx : jsstring) (d : list Byte.byte)
  : option jsstring :=
  if streq (toLowerCase pfx) (lit "osmo") && bytes_eq d sample_data
  then Some osmo_address
  else if streq (toLowerCase pfx) (lit "cosmos") && bytes_eq d sample_data
       then Some cosmos_address
       else None.

(** For the prefix [pfx] the decoder reads back what the encoder wrote:
    an address the encoder returns decodes to the lower-cased prefix and
    the data it was given. *)
Definition decodes_what_it_encodes (lib : Codecs)
  (toBech32 : jsstring -> list Byte.byte -> option jsstring)
  (pfx : jsstring) : Prop :=
  forall d a,
    toBech32 pfx d = Some a ->
    cosmjs_fromBech32 lib a =
    Some {| prefix := toLowerCase pfx; data := d |}.

End AddressSpec.

(* ================================================================== *)
(** ** Properties of the string utilities                               *)
(* ================================================================== *)

Module StringProps.

Import StringUtils StringSpec.

(** *** Lengths, prefixes and suffixes *)

Lemma len_nonneg (s : jsstring) : 0 <= len s.
Proof. unfold len. lia. Qed.

Lemma len_app (a b : jsstring) : len (a ++ b) = len a + len b.
Proof. unfold len. rewrite length_app. lia. Qed.

Lemma len_firstn (s : jsstring) (k : Z) :
  0 <= k <= len s -> len (firstn (Z.to_nat k) s) = k.
Proof.
  unfold len. intros Hk. rewrite length_firstn. lia.
Qed.

Lemma len_firstn_le (s : jsstring) (k : nat) : len (firstn k s) <= len s.
Proof. unfold len. rewrite length_firstn. lia. Qed.

Lemma len_skipn (s : jsstring) (k : Z) :
  0 <= k <= len s -> len (skipn (Z.to_nat k) s) = len s - k.
Proof.
  unfold len. intros Hk. rewrite length_skipn. lia.
Qed.

Lemma truthy_false_nil (s : jsstring) : truthy s = false <-> s = [].
Proof. destruct s; simpl; split; intros H; congruence. Qed.

(** [slice] from 0 to a position inside the string is [firstn]. *)
Lemma slice_0_inside (s : jsstring) (k : Z) :
  0 <= k -> slice s 0 k = firstn (Z.to_nat k) s.
Proof.
  intros Hk. unfold slice, rel_index.
  pose proof (len_nonneg s) as Hn.
  change (0 <? 0) with false. cbv iota.
  destruct (k <? 0) eqn:E; [apply Z.ltb_lt in E; lia|].
  rewrite (Z.min_l 0 (len s)) by lia.
  simpl skipn. rewrite Z.sub_0_r.
  destruct (Z.le_ge_cases k (len s)) as [Hle | Hge].
  - rewrite Z.min_l by lia. reflexivity.
  - rewrite Z.min_r by lia.
    rewrite !firstn_all2; trivial; unfold len in *; lia.
Qed.

(** [substring(0, k)] with [0 <= k <= length] is the first [k] units. *)
Lemma substring_prefix (s : jsstring) (k : Z) :
  0 <= k <= len s -> substring s 0 k = firstn (Z.to_nat k) s.
Proof.
  intros Hk. unfold substring, clamp.
  rewrite (Z.max_l 0 0) by lia. rewrite (Z.max_l k 0) by lia.
  rewrite (Z.min_l 0 (len s)) by lia. rewrite (Z.min_l k (len s)) by lia.
  rewrite Z.min_l by lia. rewrite Z.max_r by lia.
  rewrite Z.sub_0_r. reflexivity.
Qed.

(** [substring(length - k, length)] with [0 <= k <= length] is the last
    [k] units. *)
Lemma substring_suffix (s : jsstring) (k : Z) :
  0 <= k <= len s ->
  substring s (len s - k) (len s) = skipn (Z.to_nat (len s - k)) s.
Proof.
  intros Hk. unfold substring, clamp.
  rewrite (Z.max_l (len s - k) 0) by lia. rewrite (Z.max_l (len s) 0) by lia.
  rewrite (Z.min_l (len s - k) (len s)) by lia.
  rewrite (Z.min_l (len s) (len s)) by lia.
  rewrite Z.min_l by lia. rewrite Z.max_r by lia.
  apply firstn_all2. rewrite length_skipn. unfold len in *. lia.
Qed.

(** *** truncate and shorten *)

Lemma truncate_nonneg (str : jsstring) (num : Z) :
  0 <= num -> truncate_bounded str num.
Proof.
  intros Hnum. unfold truncate_bounded, truncate.
  pose proof (len_nonneg str) as Hn.
  destruct (len str <=? num) eqn:E.
  - apply Z.leb_le in E. repeat split; intros; try lia; trivial.
  - apply Z.leb_gt in E. rewrite slice_0_inside by lia.
    repeat split; intros; try lia; trivial.
    rewrite len_app, len_firstn by lia. change (len (lit "...")) with 3. lia.
Qed.

(** *** Numbers of integer value *)

Lemma integer_valued_of_int (z : Z) : integer_valued (of_int z) z.
Proof. cbn. reflexivity. Qed.

Lemma trunc_integer (q : Q) (z : Z) : (q == inject_Z z)%Q -> trunc q = z.
Proof.
  unfold Qeq, trunc. cbn [Qnum Qden inject_Z]. intros H.
  rewrite Z.mul_1_r in H. rewrite H. apply Z.quot_mul. discriminate.
Qed.

Lemma to_index_integer (n : Z) (x : number) (z : Z) :
  integer_valued x z -> to_index n x = z.
Proof.
  destruct x as [q| | |]; cbn; try contradiction. apply trunc_integer.
Qed.

Lemma num_sub_integer (a : Z) (y : number) (z : Z) :
  integer_valued y z -> integer_valued (num_sub (of_int a) y) (a - z).
Proof.
  destruct y as [q| | |]; cbn; try contradiction. intros H.
  rewrite H. unfold Z.sub. rewrite inject_Z_plus, inject_Z_opp. reflexivity.
Qed.

Lemma num_le_integers (a : Z) (x y : number) (p s : Z) :
  integer_valued x p -> integer_valued y s ->
  num_le (of_int a) (num_add x y) = (a <=? p + s).
Proof.
  destruct x as [qx| | |]; cbn; try contradiction.
  destruct y as [qy| | |]; cbn; try contradiction.
  intros Hx Hy.
  assert (Qle_bool (inject_Z a) (qx + qy) = true <-> a <= p + s) as H.
  { rewrite Qle_bool_iff, Hx, Hy, <- inject_Z_plus, <- Zle_Qle. reflexivity. }
  destruct (Z.leb_spec a (p + s)) as [Hle | Hgt].
  - now apply H.
  - destruct (Qle_bool (inject_Z a) (qx + qy)); [|reflexivity].
    assert (a <= p + s) by now apply H. lia.
Qed.

(** With lengths of integer value [shorten] is the integer computation. *)
Lemma shorten_integer (string : jsstring) (opts : option ShortenOpts)
  (p s : Z) :
  integer_valued (opt_field opts prefixLength (of_int 6)) p ->
  integer_valued (opt_field opts suffixLength (of_int 5)) s ->
  shorten string opts =
  if negb (truthy string) then lit ""
  else if len string <=? p + s then string
  else substring string 0 p ++
       opt_field opts delim (lit "...") ++
       substring string (len string - s) (len string).
Proof.
  intros Hp Hs. unfold shorten, substring_num.
  rewrite (num_le_integers _ _ _ p s Hp Hs).
  rewrite (to_index_integer _ _ 0 (integer_valued_of_int 0)).
  rewrite (to_index_integer _ _ p Hp).
  rewrite (to_index_integer _ _ _ (num_sub_integer (len string) _ s Hs)).
  rewrite (to_index_integer _ _ _ (integer_valued_of_int (len string))).
  reflexivity.
Qed.

Lemma shorten_nonneg (string : jsstring) (opts : option ShortenOpts)
  (p s : Z) :
  integer_valued (opt_field opts prefixLength (of_int 6)) p ->
  integer_valued (opt_field opts suffixLength (of_int 5)) s ->
  0 <= p -> 0 <= s ->
  shorten_bounded string opts p s.
Proof.
  intros Ip Is Hp Hs. unfold shorten_bounded.
  rewrite (shorten_integer string opts p s Ip Is).
  set (d := opt_field opts delim (lit "...")).
  pose proof (len_nonneg string) as Hn.
  pose proof (len_nonneg d) as Hd.
  destruct (truthy string) eqn:T; simpl negb; cbv iota.
  - assert (string <> []) as Hne
        by (intros ->; discriminate).
    destruct (len string <=? p + s) eqn:E.
    + apply Z.leb_le in E. repeat split; intros; try lia; trivial.
    + apply Z.leb_gt in E.
      rewrite substring_prefix by lia. rewrite substring_suffix by lia.
      repeat split; intros; try lia; trivial; try contradiction.
      rewrite !len_app, len_firstn, len_skipn by lia. lia.
  - apply truthy_false_nil in T. subst string.
    change (len []) with 0 in *. change (lit "") with (@nil ascii).
    change (len []) with 0.
    repeat split; intros; try lia; trivial.
Qed.

(** C5 (as amended).  For every string and every non-negative integer
    breakpoint [num], [truncate] returns the string unchanged when its
    length is at most [num] and otherwise its first [num] units followed by
    ["..."], so the result has at most [num + 3] units; for every string
    and option set whose [prefixLength] and [suffixLength] are non-negative
    integers, [shorten] returns [""] on empty input, the string unchanged
    when its length is at most [prefixLength + suffixLength], and otherwise
    the first [prefixLength] units, the delimiter and the last
    [suffixLength] units, so the result has at most
    [prefixLength + suffixLength + delim.length] units. *)
Theorem truncate_shorten_bounded_nonneg :
  forall (str : jsstring) (num : Z) (opts : option ShortenOpts) (p s : Z),
    0 <= num ->
    integer_valued (opt_field opts prefixLength (of_int 6)) p ->
    integer_valued (opt_field opts suffixLength (of_int 5)) s ->
    0 <= p -> 0 <= s ->
    truncate_bounded str num /\ shorten_bounded str opts p s.
Proof.
  intros str num opts p s Hnum Ip Is Hp Hs. split.
  - now apply truncate_nonneg.
  - now apply shorten_nonneg.
Qed.

Lemma truncate_shorten_bounded_nonneg_witness :
  truncate_bounded (lit "osmo1abcdefgh") 8 /\
  shorten_bounded (lit "osmo1abcdefgh")
    (Some {| prefixLength := Some (of_int 4); suffixLength := None;
             delim := None |}) 4 5.
Proof.
  apply (truncate_shorten_bounded_nonneg (lit "osmo1abcdefgh") 8
           (Some {| prefixLength := Some (of_int 4); suffixLength := None;
                    delim := None |}) 4 5);
    try lia; cbn; reflexivity.
Defined.

(** C5 as stated fails for a negative breakpoint: [slice(0, -1)] drops the
    last unit only, so ["abcdef"] becomes ["abcde..."]. *)
Lemma truncate_negative_breakpoint :
  truncate (lit "abcdef") (Some (-1)) = lit "abcde..." /\
  ~ truncate_bounded (lit "abcdef") (-1).
Proof.
  split; [reflexivity|].
  intros (_ & _ & H). vm_compute in H. apply H. reflexivity.
Qed.

(** A length that is not an integer is truncated by [substring], and the
    start of the suffix is computed before the truncation: with a
    [suffixLength] of one half the suffix is one unit long, and the result
    has 4 units. *)
Example shorten_half_suffix :
  shorten (lit "ab")
    (Some {| prefixLength := Some (of_int 0);
             suffixLength := Some (Finite (1 # 2)); delim := None |}) =
  lit "...b".
Proof. reflexivity. Qed.

(** *** ellipsisText *)

(** C6 (as amended).  For every string and every [maxLength] of at least 3,
    [ellipsisText] yields [""] on empty input; when the input is longer
    than [maxLength] the result is a prefix of the trimmed input followed by
    ["..."] and has at most [maxLength] units; otherwise the result is the
    trimmed input. *)
Theorem ellipsisText_bounded_from_three :
  forall (str : jsstring) (maxLength : Z),
    3 <= maxLength -> ellipsisText_bounded str maxLength.
Proof.
  intros str maxLength Hmax. unfold ellipsisText_bounded, ellipsisText.
  destruct (truthy str) eqn:T; simpl negb; cbv iota.
  - assert (str <> []) as Hne by (intros ->; discriminate).
    destruct (len str >? maxLength) eqn:E.
    + apply Z.gtb_lt in E. rewrite slice_0_inside by lia.
      split; [intros; contradiction|]. split; [|intros; lia].
      intros _ _. split.
      * exists (firstn (Z.to_nat (maxLength - 3)) (trim str)),
               (skipn (Z.to_nat (maxLength - 3)) (trim str)).
        split; [symmetry; apply firstn_skipn | reflexivity].
      * rewrite len_app. change (len (lit "...")) with 3.
        assert (len (firstn (Z.to_nat (maxLength - 3)) (trim str))
                <= maxLength - 3); [|lia].
        unfold len. rewrite length_firstn. lia.
    + assert (len str <= maxLength) as Hle.
      { destruct (Z.gtb_spec (len str) maxLength); [discriminate | lia]. }
      split; [intros; contradiction|]. split; [intros; lia | reflexivity].
  - apply truthy_false_nil in T. subst str.
    split; [reflexivity|]. split; intros; congruence.
Qed.

Lemma ellipsisText_bounded_from_three_witness :
  ellipsisText_bounded (lit "  limit order  ") 8.
Proof.
  apply (ellipsisText_bounded_from_three (lit "  limit order  ") 8). lia.
Defined.

(** C6 as stated fails below 3: with [maxLength = 2] the slice end is [-1],
    which drops one unit from the end, and the result has 8 units. *)
Lemma ellipsisText_below_three :
  ellipsisText (lit "abcdef") 2 = lit "abcde..." /\
  ~ ellipsisText_bounded (lit "abcdef") 2.
Proof.
  split; [reflexivity|].
  intros (_ & H & _).
  assert (lit "abcdef" <> []) as Hne by discriminate.
  destruct (H Hne) as [_ Hlen]; [reflexivity|].
  vm_compute in Hlen. apply Hlen. reflexivity.
Qed.

(** *** normalizeUrl *)

Lemma strip_prefix_spec (p s r : jsstring) :
  strip_prefix p s = Some r <-> s = p ++ r.
Proof.
  revert s. induction p as [|a p IH]; intros s; cbn [strip_prefix app].
  - split; congruence.
  - destruct s as [|b s]; [split; discriminate|].
    destruct (Ascii.eqb_spec a b) as [-> | Hne].
    + rewrite IH. split; [intros ->; reflexivity | congruence].
    + split; [discriminate | congruence].
Qed.

Lemma starts_with_spec (p s : jsstring) :
  starts_with p s = true <-> exists r, s = p ++ r.
Proof.
  unfold starts_with. destruct (strip_prefix p s) as [r|] eqn:E.
  - apply strip_prefix_spec in E. split; [now exists r | trivial].
  - split; [discriminate|]. intros [r Hr].
    apply strip_prefix_spec in Hr. congruence.
Qed.

Lemma match_scheme_spec (url rest : jsstring) :
  match_scheme url = Some rest <->
  url = lit "http://" ++ rest \/ url = lit "https://" ++ rest.
Proof.
  unfold match_scheme.
  destruct (strip_prefix (lit "http") url) as [r|] eqn:E.
  - apply strip_prefix_spec in E. subst url.
    destruct (strip_prefix (lit "s") r) as [r'|] eqn:Es.
    + apply strip_prefix_spec in Es. subst r.
      assert (strip_prefix (lit "://") (lit "s" ++ r') = None) as Hno
          by reflexivity.
      destruct (strip_prefix (lit "://") r') as [x|] eqn:Ec.
      * apply strip_prefix_spec in Ec. subst r'. split.
        -- intros [= ->]. now right.
        -- intros [H | H]; [discriminate H|].
           injection H as ->. reflexivity.
      * rewrite Hno. split; [discriminate|].
        intros [H | H]; [discriminate H|].
        assert (r' = lit "://" ++ rest) as Hr by (now injection H).
        apply strip_prefix_spec in Hr. congruence.
    + destruct (strip_prefix (lit "://") r) as [x|] eqn:Ec.
      * apply strip_prefix_spec in Ec. subst r. split.
        -- intros [= ->]. now left.
        -- intros [H | H]; [|discriminate H].
           injection H as ->. reflexivity.
      * split; [discriminate|].
        intros [H | H].
        -- assert (r = lit "://" ++ rest) as Hr by (now injection H).
           apply strip_prefix_spec in Hr. congruence.
        -- assert (r = lit "s" ++ lit "://" ++ rest) as Hr
               by (now injection H).
           apply strip_prefix_spec in Hr. congruence.
  - split; [discriminate|].
    intros [H | H];
      [assert (url = lit "http" ++ lit "://" ++ rest) as Hr by exact H
      |assert (url = lit "http" ++ lit "s://" ++ rest) as Hr by exact H];
      apply strip_prefix_spec in Hr; congruence.
Qed.

Lemma ends_with_slash_spec (s : jsstring) :
  ends_with (lit "/") s = true <-> s = removelast s ++ lit "/".
Proof.
  unfold ends_with. rewrite starts_with_spec.
  change (lit "/") with ["/"%char]. change (rev ["/"%char]) with ["/"%char].
  split.
  - intros [r Hr].
    assert (s = rev r ++ ["/"%char]) as Hs.
    { rewrite <- (rev_involutive s), Hr. reflexivity. }
    rewrite Hs. now rewrite removelast_last.
  - intros Hs. exists (rev (removelast s)).
    rewrite Hs at 1. rewrite rev_app_distr. reflexivity.
Qed.

(** The three steps, each as the part it removes. *)
Lemma replace_scheme_shape (url : jsstring) :
  exists p, url = p ++ replace_scheme url /\
            (p = lit "" \/ p = lit "http://" \/ p = lit "https://") /\
            (p = lit "" -> match_scheme url = None).
Proof.
  unfold replace_scheme. destruct (match_scheme url) as [rest|] eqn:E.
  - apply match_scheme_spec in E. destruct E as [E | E].
    + exists (lit "http://"). repeat split; auto. discriminate.
    + exists (lit "https://"). repeat split; auto. discriminate.
  - exists (lit ""). repeat split; auto.
Qed.

Lemma replace_www_shape (url : jsstring) :
  exists p, url = p ++ replace_www url /\
            (p = lit "" \/ p = lit "www.") /\
            (p = lit "" -> starts_with (lit "www.") url = false).
Proof.
  unfold replace_www, starts_with.
  destruct (strip_prefix (lit "www.") url) as [rest|] eqn:E.
  - apply strip_prefix_spec in E.
    exists (lit "www."). repeat split; auto. discriminate.
  - exists (lit ""). repeat split; auto.
Qed.

Lemma replace_trailing_slash_shape (url : jsstring) :
  exists q, url = replace_trailing_slash url ++ q /\
            (q = lit "" \/ q = lit "/") /\
            (q = lit "" -> ends_with (lit "/") url = false).
Proof.
  unfold replace_trailing_slash.
  destruct (ends_with (lit "/") url) eqn:E.
  - apply ends_with_slash_spec in E.
    exists (lit "/"). repeat split; auto. discriminate.
  - exists (lit ""). repeat split; auto. symmetry. apply app_nil_r.
Qed.












(** Likewise only one scheme and one ["www."] are removed. *)
Example normalizeUrl_double_scheme :
  normalizeUrl (lit "http://http://x") = lit "http://x".
Proof. reflexivity. Qed.

Example normalizeUrl_double_www :
  normalizeUrl (lit "www.www.x") = lit "www.x".
Proof. reflexivity. Qed.

(** *** camelCaseToSnakeCase and camelToKebabCase *)

Ltac by_cases_on_code c :=
  destruct c as [[] [] [] [] [] [] [] []]; reflexivity.

Lemma lower_char_not_AZ (c : ascii) : is_AZ (lower_char c) = false.
Proof. by_cases_on_code c. Qed.

Lemma lower_char_idem (c : ascii) : lower_char (lower_char c) = lower_char c.
Proof. by_cases_on_code c. Qed.

Lemma toLowerCase_no_capitals (s : jsstring) : no_capitals (toLowerCase s).
Proof.
  unfold no_capitals, toLowerCase. apply Forall_map, Forall_forall.
  intros c _. apply lower_char_not_AZ.
Qed.

Lemma toLowerCase_idem (s : jsstring) :
  toLowerCase (toLowerCase s) = toLowerCase s.
Proof.
  unfold toLowerCase. rewrite map_map. apply map_ext, lower_char_idem.
Qed.

(** Without capitals neither regular expression matches anywhere. *)
Lemma replace_lower_upper_fixed (s : jsstring) :
  no_capitals s -> replace_lower_upper s = s.
Proof.
  induction 1 as [|c1 t Hc1 Ht IH]; [reflexivity|].
  destruct Ht as [|c2 r Hc2 Hr]; [reflexivity|].
  cbn [replace_lower_upper]. rewrite Hc2, andb_false_r.
  f_equal. exact IH.
Qed.

Lemma replace_capitals_fixed (s : jsstring) :
  no_capitals s -> replace_capitals s = s.
Proof.
  unfold replace_capitals.
  induction 1 as [|c t Hc Ht IH]; [reflexivity|].
  cbn [flat_map]. rewrite Hc, IH. reflexivity.
Qed.

Lemma replace_capitals_no_capitals (s : jsstring) :
  no_capitals (replace_capitals s).
Proof.
  unfold no_capitals, replace_capitals.
  induction s as [|c t IH]; [constructor|].
  cbn [flat_map]. apply Forall_app. split; [|exact IH].
  destruct (is_AZ c) eqn:E.
  - repeat constructor. apply lower_char_not_AZ.
  - repeat constructor. exact E.
Qed.

Lemma replace_leading_dash_no_capitals (s : jsstring) :
  no_capitals s -> no_capitals (replace_leading_dash s).
Proof.
  unfold replace_leading_dash. intros H.
  destruct s as [|c t]; [exact H|].
  change (lit "-") with ["-"%char]. cbn [strip_prefix].
  destruct (Ascii.eqb "-" c); [|exact H].
  now inversion H.
Qed.

Lemma replace_leading_dash_fixed (s : jsstring) :
  starts_with (lit "-") s = false -> replace_leading_dash s = s.
Proof.
  unfold starts_with, replace_leading_dash.
  destruct (strip_prefix (lit "-") s); [discriminate | reflexivity].
Qed.

Lemma camelCaseToSnakeCase_idem (s : jsstring) :
  idempotent camelCaseToSnakeCase s.
Proof.
  unfold idempotent, camelCaseToSnakeCase.
  rewrite (replace_lower_upper_fixed (toLowerCase _))
    by apply toLowerCase_no_capitals.
  apply toLowerCase_idem.
Qed.

Lemma camelToKebabCase_twice (s : jsstring) :
  camelToKebabCase (camelToKebabCase s) =
  replace_leading_dash (camelToKebabCase s).
Proof.
  unfold camelToKebabCase at 1.
  rewrite replace_capitals_fixed; [reflexivity|].
  apply replace_leading_dash_no_capitals, replace_capitals_no_capitals.
Qed.

(** C8 (as amended).  For every string [s], [camelCaseToSnakeCase] applied
    twice equals [camelCaseToSnakeCase] applied once; [camelToKebabCase]
    applied twice equals [camelToKebabCase(s)] with one leading ["-"]
    removed, and so equals [camelToKebabCase(s)] whenever that string does
    not begin with ["-"]. *)
Theorem case_conversions_stable :
  forall s : jsstring,
    idempotent camelCaseToSnakeCase s /\
    camelToKebabCase (camelToKebabCase s) =
      replace_leading_dash (camelToKebabCase s) /\
    (starts_with (lit "-") (camelToKebabCase s) = false ->
     idempotent camelToKebabCase s).
Proof.
  intros s. split; [apply camelCaseToSnakeCase_idem|].
  split; [apply camelToKebabCase_twice|].
  intros H. unfold idempotent.
  rewrite camelToKebabCase_twice. now apply replace_leading_dash_fixed.
Qed.

Lemma case_conversions_stable_witness :
  camelToKebabCase (lit "FooBarBaz") = lit "foo-bar-baz" /\
  idempotent camelToKebabCase (lit "FooBarBaz").
Proof.
  split; [reflexivity|].
  apply (case_conversions_stable (lit "FooBarBaz")). reflexivity.
Defined.

(** C8 as stated fails for [camelToKebabCase]: ["-Foo"] becomes ["-foo"],
    and converting that again removes the dash. *)
Lemma camelToKebabCase_leading_dash :
  camelToKebabCase (lit "-Foo") = lit "-foo" /\
  camelToKebabCase (lit "-foo") = lit "foo" /\
  ~ idempotent camelToKebabCase (lit "-Foo").
Proof.
  split; [reflexivity|]. split; [reflexivity|].
  unfold idempotent. vm_compute. discriminate.
Qed.

End StringProps.

(* ================================================================== *)
(** ** Properties of the order-book hooks                               *)
(* ================================================================== *)

Module HookProps.

Import Hooks HookSpec.

Lemma streq_true (a b : jsstring) : streq a b = true <-> a = b.
Proof.
  unfold streq. destruct (list_eq_dec ascii_dec a b); split; congruence.
Qed.

Lemma streq_refl (a : jsstring) : streq a a = true.
Proof. now apply streq_true. Qed.

(** *** Maker fee and order-book error *)

(** C9.  For every order-book address, [useMakerFee] returns a maker fee
    that is never absent: it is [Dec(0)] while the query is loading and
    whenever the loaded data is absent or carries no maker fee, and the
    fetched maker fee unchanged otherwise. *)
Theorem useMakerFee_never_absent :
  forall {Fn} (api : Api Fn) (orderbookAddress : jsstring),
    let q := makerFeeQuery api orderbookAddress in
    let fee := MakerFee.makerFee (useMakerFee api orderbookAddress) in
    (Query.isLoading q = true -> fee = new_Dec 0) /\
    (Query.isLoading q = false ->
     (Query.data q = None \/
      exists d, Query.data q = Some d /\ makerFee d = None) ->
     fee = new_Dec 0) /\
    (Query.isLoading q = false ->
     forall d f, Query.data q = Some d -> makerFee d = Some f -> fee = f).
Proof.
  intros Fn api orderbookAddress q fee. subst fee.
  unfold useMakerFee. fold (makerFeeQuery api orderbookAddress). fold q.
  cbn [MakerFee.makerFee]. repeat split.
  - intros ->. reflexivity.
  - intros -> [E | (d & E & Ed)]; rewrite E; [|rewrite Ed]; reflexivity.
  - intros -> d f E Ed. rewrite E, Ed. reflexivity.
Qed.

Lemma useMakerFee_never_absent_witness :
  MakerFee.makerFee (useMakerFee api_with_fee (lit "osmo1book")) =
  {| atomics := 10 ^ 15 |}.
Proof.
  refine (proj2 (proj2
    (useMakerFee_never_absent api_with_fee (lit "osmo1book"))) _ _ _ _ _);
    reflexivity.
Defined.

Lemma useOrderbook_fields {Fn} (api : Api Fn) (b q : jsstring) :
  let r := useOrderbook api b q in
  UseOrderbook.orderbook r = find (pairPredicate api b q) (fst (useOrderbooks api))
  /\ UseOrderbook.isOrderbookLoading r = snd (useOrderbooks api)
  /\ UseOrderbook.error r =
     orderbookError (snd (useOrderbooks api)) (UseOrderbook.orderbook r)
       (Query.error (makerFeeQuery api (UseOrderbook.contractAddress r))).
Proof.
  unfold useOrderbook, pairPredicate.
  destruct (useOrderbooks api) as [obs loading]. cbn. repeat split.
Qed.

(** C3.  For every base/quote pair, once order-book loading has finished,
    if no order book of the list matches the pair, or the one found has a
    missing or empty [poolId], the [error] of [useOrderbook] is
    ["errors.noOrderbook"]; in every other case it is the message of the
    maker-fee query's error, if there is one, and absent if there is
    none. *)
Theorem useOrderbook_error :
  forall {Fn} (api : Api Fn) (baseDenom' quoteDenom' : jsstring),
    let r := useOrderbook api baseDenom' quoteDenom' in
    let loading := snd (useOrderbooks api) in
    let feeError :=
      Query.error (makerFeeQuery api (UseOrderbook.contractAddress r)) in
    (UseOrderbook.orderbook r = None <->
     forall ob, In ob (fst (useOrderbooks api)) ->
                pairPredicate api baseDenom' quoteDenom' ob = false) /\
    (loading = false -> UseOrderbook.orderbook r = None ->
     UseOrderbook.error r = Some (lit "errors.noOrderbook")) /\
    (loading = false ->
     forall ob, UseOrderbook.orderbook r = Some ob ->
                poolId ob = None \/ poolId ob = Some (lit "") ->
     UseOrderbook.error r = Some (lit "errors.noOrderbook")) /\
    (loading = true \/
     (exists ob p, UseOrderbook.orderbook r = Some ob /\
                   poolId ob = Some p /\ p <> lit "") ->
     UseOrderbook.error r = option_map message feeError).
Proof.
  intros Fn api b q r loading feeError.
  destruct (useOrderbook_fields api b q) as (Hob & _ & Herr).
  fold r in Hob, Herr. fold loading in Herr. fold feeError in Herr.
  split; [|split; [|split]].
  - rewrite Hob. split.
    + intros H ob Hin. exact (find_none _ _ H ob Hin).
    + intros H. destruct (find _ _) as [ob|] eqn:E; [|reflexivity].
      apply find_some in E. destruct E as [Hin Hp].
      rewrite (H ob Hin) in Hp. discriminate.
  - intros Hl Hnone. rewrite Herr, Hl, Hnone. reflexivity.
  - intros Hl ob Hsome Hpool. rewrite Herr, Hl, Hsome. unfold orderbookError.
    destruct Hpool as [-> | ->]; reflexivity.
  - intros H. rewrite Herr. unfold orderbookError.
    destruct H as [-> | (ob & p & -> & Hp & Hne)].
    + cbn. destruct feeError; reflexivity.
    + rewrite Hp. destruct p as [|c p]; [elim Hne; reflexivity|].
      cbn. rewrite andb_false_r. destruct feeError; reflexivity.
Qed.

Lemma useOrderbook_error_witness :
  UseOrderbook.error (useOrderbook api_no_books (lit "OSMO") (lit "USDC")) =
  Some (lit "errors.noOrderbook").
Proof.
  refine (proj1 (proj2
    (useOrderbook_error api_no_books (lit "OSMO") (lit "USDC"))) _ _);
    reflexivity.
Defined.

(** *** Backend selection *)

Lemma useOrdersQuery_selects {Fn} (api : Api Fn) (a : OrdersArgs.t) :
  flag_selects_backend api a.
Proof.
  unfold flag_selects_backend, useOrdersQuery.
  fold (sqsOrders api a). fold (nodeOrders api a).
  unfold ordersSQSOptions, ordersNodeOptions, pagedOptions, has_addresses.
  cbn [enabled].
  split; intros ->; cbn [negb].
  - rewrite andb_true_r, andb_false_r.
    repeat split. now destruct (sqsOrders api a).
  - rewrite andb_true_r, andb_false_r.
    repeat split. now destruct (nodeOrders api a).
Qed.

Lemma useClaimableOrdersQuery_selects {Fn} (api : Api Fn)
  (a : ClaimableArgs.t) :
  flag_selects_claimable_backend api a.
Proof.
  unfold flag_selects_claimable_backend, useClaimableOrdersQuery.
  fold (sqsClaimable api a). fold (nodeClaimable api a).
  unfold claimableSQSOptions, claimableNodeOptions, pagedOptions,
    has_addresses.
  cbn [enabled ClaimableQuery.isLoading ClaimableQuery.data].
  split; intros ->; cbn [negb].
  - rewrite andb_true_r, andb_false_r. repeat split.
    now destruct (InfiniteQuery.data (sqsClaimable api a)).
  - rewrite andb_true_r, andb_false_r. repeat split.
Qed.

(** C1 (as amended).  For every invocation of [useOrdersQuery], when the
    [sqsActiveOrders] flag is true every returned field is the SQS query's,
    the node query is disabled, and the SQS query is enabled exactly when
    [userAddress] is non-empty and at least one order book is known; when
    the flag is false the same holds with the two backends exchanged.
    [useClaimableOrdersQuery] selects [isLoading] and the enabled query the
    same way (its guard also requires [disabled] to be false); its [data]
    is the node query's data unchanged when the flag is false, and the
    concatenated items of the SQS pages, or the empty list when the SQS
    query has no data, when the flag is true. *)
Theorem orders_queries_follow_flag :
  forall {Fn} (api : Api Fn) (a : OrdersArgs.t) (c : ClaimableArgs.t),
    flag_selects_backend api a /\ flag_selects_claimable_backend api c.
Proof.
  intros Fn api a c. split.
  - apply useOrdersQuery_selects.
  - apply useClaimableOrdersQuery_selects.
Qed.

Lemma orders_queries_follow_flag_witness :
  enabled (ordersSQSOptions api_sqs_on (orders_of (lit "osmo1user"))) = true /\
  enabled (ordersNodeOptions api_sqs_on (orders_of (lit "osmo1user"))) = false.
Proof.
  destruct (orders_queries_follow_flag api_sqs_on
              (orders_of (lit "osmo1user")) (claimable_of (lit "osmo1user")))
    as [[Hsqs _] _].
  destruct (Hsqs eq_refl) as (_ & H1 & H2).
  split; [exact H1 | exact H2].
Defined.

(** C1 as stated fails: with the flag on and an empty [userAddress] the SQS
    query is not enabled either, so no query is enabled. *)
Lemma useOrdersQuery_empty_user_disabled :
  enabled (ordersSQSOptions api_sqs_on (orders_of (lit ""))) = false /\
  ~ flag_selects_enabled_backend api_sqs_on (orders_of (lit "")).
Proof.
  split; [reflexivity|].
  intros [H _]. destruct (H eq_refl) as (_ & He & _).
  vm_compute in He. discriminate He.
Qed.

(** With the flag off absent node data is passed on as absent, whereas with
    the flag on absent SQS data becomes the empty list. *)
Example useClaimableOrdersQuery_absent_data :
  ClaimableQuery.data
    (useClaimableOrdersQuery api_sqs_on (claimable_of (lit "osmo1user"))) =
  Some [] /\
  ClaimableQuery.data
    (useClaimableOrdersQuery api_sqs_off (claimable_of (lit "osmo1user"))) =
  None.
Proof. split; reflexivity. Qed.

(** *** Bulk claim *)

Lemma orders_for_empty (orders : list Order) (a : jsstring) :
  (Z.of_nat (List.length (orders_for orders a)) =? 0) =
  negb (has_order_for orders a).
Proof.
  unfold orders_for, has_order_for.
  induction orders as [|o os IH]; [reflexivity|].
  cbn [List.filter existsb].
  destruct (streq (orderbookAddress o) a); [|exact IH].
  cbn [List.length orb negb]. apply Z.eqb_neq. lia.
Qed.

Lemma claimMsgFor_eq (orders : list Order) (a : jsstring) :
  claimMsgFor orders a =
  if has_order_for orders a
  then Some {| ExecuteMsg.contractAddress := a;
               ExecuteMsg.batch_claim_orders :=
                 map (fun o => (tick_id o, order_id o)) (orders_for orders a);
               ExecuteMsg.funds := [] |}
  else None.
Proof.
  unfold claimMsgFor. fold (orders_for orders a).
  rewrite orders_for_empty. now destruct (has_order_for orders a).
Qed.

Lemma claimMsgs_cons (orders : list Order) (a : jsstring)
  (addrs : list jsstring) :
  claimMsgs (a :: addrs) orders =
  match claimMsgFor orders a with
  | Some m => m :: claimMsgs addrs orders
  | None => claimMsgs addrs orders
  end.
Proof. unfold claimMsgs. cbn. now destruct (claimMsgFor orders a). Qed.

Lemma claimMsgs_well_formed (addrs : list jsstring) (orders : list Order) :
  well_formed_msgs addrs orders (claimMsgs addrs orders).
Proof.
  unfold well_formed_msgs.
  induction addrs as [|a addrs IH]; intros m Hin; [destruct Hin|].
  rewrite claimMsgs_cons, claimMsgFor_eq in Hin.
  destruct (has_order_for orders a) eqn:E.
  - destruct Hin as [<- | Hin].
    + cbn. rewrite E. auto.
    + destruct (IH m Hin) as (H1 & H2). split; [now right | exact H2].
  - destruct (IH m Hin) as (H1 & H2). split; [now right | exact H2].
Qed.

(** The messages for [a] are as many as the entries of the address list
    equal to [a], when [a] has an order, and none otherwise. *)
Lemma claimMsgs_count (addrs : list jsstring) (orders : list Order)
  (a : jsstring) :
  List.length (msgs_for (claimMsgs addrs orders) a) =
  if has_order_for orders a
  then count_occ (list_eq_dec ascii_dec) addrs a
  else 0%nat.
Proof.
  induction addrs as [|x addrs IH].
  - cbn. now destruct (has_order_for orders a).
  - rewrite claimMsgs_cons, claimMsgFor_eq. cbn [count_occ].
    destruct (list_eq_dec ascii_dec x a) as [-> | Hne].
    + destruct (has_order_for orders a) eqn:E.
      * unfold msgs_for in *. cbn [List.filter ExecuteMsg.contractAddress].
        rewrite streq_refl. cbn [List.length]. rewrite IH. reflexivity.
      * rewrite IH. reflexivity.
    + assert (streq x a = false) as Hx.
      { destruct (streq x a) eqn:Ex; [|reflexivity].
        apply streq_true in Ex. contradiction. }
      destruct (has_order_for orders x).
      * unfold msgs_for in *. cbn [List.filter ExecuteMsg.contractAddress].
        rewrite Hx. exact IH.
      * exact IH.
Qed.

Lemma claimMsgs_nonempty (addrs : list jsstring) (orders : list Order)
  (a : jsstring) :
  In a addrs -> has_order_for orders a = true ->
  (Z.of_nat (List.length (claimMsgs addrs orders)) >? 0) = true.
Proof.
  intros Hin Ha.
  induction addrs as [|x addrs IH]; [destruct Hin|].
  rewrite claimMsgs_cons, claimMsgFor_eq.
  destruct Hin as [-> | Hin].
  - rewrite Ha. cbn [List.length]. apply Z.gtb_lt. lia.
  - destruct (has_order_for orders x); [|now apply IH].
    cbn [List.length]. apply Z.gtb_lt. lia.
Qed.

Lemma claimMsgs_empty (addrs : list jsstring) (orders : list Order) :
  (forall a, In a addrs -> has_order_for orders a = false) ->
  claimMsgs addrs orders = [].
Proof.
  induction addrs as [|x addrs IH]; intros H; [reflexivity|].
  rewrite claimMsgs_cons, claimMsgFor_eq, (H x) by now left.
  apply IH. intros a Ha. apply H. now right.
Qed.

(** C2 (as amended).  For every connected account and list of claimable
    orders, [claimAllOrders] builds one message for each entry of the
    order-book address list that has a matching claimable order (so exactly
    one per contract address when the addresses are distinct); each message
    is a [batch_claim] of the [tick_id, order_id] pairs of precisely the
    orders whose [orderbookAddress] equals its contract address, with empty
    funds; and, when at least one order matches a known address, all the
    messages are submitted in a single [sendMultiExecuteContractMsg]
    call. *)
Theorem claimAllOrders_batches :
  forall (acc : Wallet) (orders : list Order) (addrs : list jsstring)
         (w : World),
    let ms := claimMsgs addrs orders in
    well_formed_msgs addrs orders ms /\
    (forall a, has_order_for orders a = true ->
       List.length (msgs_for ms a) = count_occ (list_eq_dec ascii_dec) addrs a)
    /\
    (forall a, has_order_for orders a = false -> msgs_for ms a = []) /\
    (NoDup addrs -> one_msg_per_address addrs orders ms) /\
    ((exists a, In a addrs /\ has_order_for orders a = true) ->
     claimAllOrders (Some acc) (Some orders) addrs w =
     w ++ [submission acc ms]).
Proof.
  intros acc orders addrs w ms. subst ms.
  split; [apply claimMsgs_well_formed|].
  split; [intros a Ha; now rewrite claimMsgs_count, Ha|].
  split.
  { intros a Ha. apply length_zero_iff_nil. now rewrite claimMsgs_count, Ha. }
  split.
  - intros Hnd a Hin Ha. rewrite claimMsgs_count, Ha.
    apply NoDup_count_occ'; assumption.
  - intros (a & Hin & Ha). unfold claimAllOrders.
    rewrite (claimMsgs_nonempty addrs orders a Hin Ha). reflexivity.
Qed.

Lemma claimAllOrders_batches_witness :
  claimAllOrders (Some alice)
    (Some [order_at (lit "osmo1a") 5 1; order_at (lit "osmo1b") 7 2;
           order_at (lit "osmo1a") (-3) 4])
    [lit "osmo1a"; lit "osmo1b"; lit "osmo1c"] [] =
  [submission alice
     [ {| ExecuteMsg.contractAddress := lit "osmo1a";
          ExecuteMsg.batch_claim_orders := [(5, 1); (-3, 4)];
          ExecuteMsg.funds := [] |};
       {| ExecuteMsg.contractAddress := lit "osmo1b";
          ExecuteMsg.batch_claim_orders := [(7, 2)];
          ExecuteMsg.funds := [] |} ]].
Proof.
  refine (proj2 (proj2 (proj2 (proj2
    (claimAllOrders_batches alice
       [order_at (lit "osmo1a") 5 1; order_at (lit "osmo1b") 7 2;
        order_at (lit "osmo1a") (-3) 4]
       [lit "osmo1a"; lit "osmo1b"; lit "osmo1c"] [])))) _).
  exists (lit "osmo1a"). split; [now left | reflexivity].
Defined.

(** C2 as stated fails: a non-empty list of claimable orders none of which
    belongs to a known order book yields no message and no submission. *)
Lemma claimAllOrders_unmatched_orders :
  claimAllOrders (Some alice) (Some [order_at (lit "osmo1b") 7 2])
    [lit "osmo1a"] [] = [] /\
  ~ claims_submitted_once alice [order_at (lit "osmo1b") 7 2]
      [lit "osmo1a"] [].
Proof.
  split; [reflexivity|].
  intros H. destruct H as (_ & _ & H); [discriminate|].
  vm_compute in H. discriminate H.
Qed.

(** Two order books with one contract address yield two messages for it. *)
Example claimMsgs_repeated_address :
  List.length
    (msgs_for (claimMsgs [lit "osmo1a"; lit "osmo1a"]
                 [order_at (lit "osmo1a") 5 1]) (lit "osmo1a")) = 2%nat.
Proof. reflexivity. Qed.

(** C10.  [claimAllOrders] makes no wallet submission and leaves the state
    as it was when there is no connected account, or the claimable-orders
    data is absent, or no claimable order matches any known order-book
    contract address (the built message list is then empty). *)
Theorem claimAllOrders_no_submission :
  forall (account : option Wallet) (orders : option (list Order))
         (addrs : list jsstring) (w : World),
    (forall os, (forall a, In a addrs -> has_order_for os a = false) ->
                claimMsgs addrs os = []) /\
    (nothing_to_claim account orders addrs ->
     claimAllOrders account orders addrs w = w).
Proof.
  intros account orders addrs w. split.
  - intros os Hno. now apply claimMsgs_empty.
  - intros H. unfold claimAllOrders.
    destruct account as [acc|]; [|reflexivity].
    destruct orders as [os|]; [|reflexivity].
    destruct H as [H | [H | (os' & E & H)]]; try discriminate.
    injection E as <-. rewrite claimMsgs_empty; [reflexivity | exact H].
Qed.

Lemma claimAllOrders_no_submission_witness :
  claimAllOrders (Some alice) (Some [order_at (lit "osmo1b") 7 2])
    [lit "osmo1a"] [submission alice []] = [submission alice []].
Proof.
  refine (proj2 (claimAllOrders_no_submission (Some alice)
            (Some [order_at (lit "osmo1b") 7 2]) [lit "osmo1a"]
            [submission alice []]) _).
  right. right. exists [order_at (lit "osmo1b") 7 2].
  split; [reflexivity|].
  intros a [<- | []]. reflexivity.
Defined.

(** The hook hands out the callback over the wallet of the account store,
    the data of the claimable-orders query and the known addresses. *)
Lemma useOrderbookClaimableOrders_callback {Fn} (api : Api Fn)
  (a : ClaimableArgs.t) :
  ClaimableOrders.claimAllOrders (useOrderbookClaimableOrders api a) =
  claimAllOrders (getWallet api)
    (ClaimableQuery.data (useClaimableOrdersQuery api a)) (addresses api).
Proof. reflexivity. Qed.

End HookProps.

(* ================================================================== *)
(** ** Properties of the address validators                             *)
(* ================================================================== *)

Module AddressProps.

Import Address AddressSpec.

Lemma streq_iff (a b : jsstring) : streq a b = true <-> a = b.
Proof. apply HookProps.streq_true. Qed.

Lemma version_of_spec (env : BitcoinEnv) (v : Z) :
  (is_mainnet env &&
     ((v =? pubKeyHash networks_bitcoin) || (v =? scriptHash networks_bitcoin))
   || is_testnet env &&
     ((v =? pubKeyHash networks_testnet) || (v =? scriptHash networks_testnet)))
  = true <-> version_of env v.
Proof.
  destruct env; cbn [is_mainnet is_testnet andb orb version_of];
    rewrite ?orb_false_r, orb_true_iff, !Z.eqb_eq; tauto.
Qed.

Lemma prefix_of_spec (env : BitcoinEnv) (p : jsstring) :
  (is_mainnet env && streq p (lit "bc")
   || is_testnet env && (streq p (lit "tb") || streq p (lit "bcrt")))
  = true <-> prefix_of env p.
Proof.
  destruct env; cbn [is_mainnet is_testnet andb orb prefix_of];
    rewrite ?orb_false_r, ?orb_true_iff, !streq_iff; tauto.
Qed.

Lemma isBitcoinAddressValid_in_order (lib : Codecs) (env : BitcoinEnv)
  (address : jsstring) :
  bitcoin_valid_iff_in_order lib env address.
Proof.
  unfold bitcoin_valid_iff_in_order, isBitcoinAddressValid,
    base58_accepts, bech32_accepts.
  destruct (fromBase58Check lib address) as [d|].
  - cbv zeta.
    match goal with |- (if ?c then true else false) = true <-> _ =>
      replace (if c then true else false) with c by (now destruct c)
    end.
    rewrite (orb_comm (b58_version d =? pubKeyHash networks_testnet)).
    rewrite (orb_comm (b58_version d =? scriptHash networks_testnet)).
    rewrite version_of_spec. split.
    + intros H. left. now exists d.
    + intros [(d' & E & H) | (E & _)]; [|discriminate].
      now injection E as <-.
  - destruct (bitcoin_fromBech32 lib address) as [d|].
    + cbv zeta.
      match goal with |- (if ?c then true else false) = true <-> _ =>
        replace (if c then true else false) with c by (now destruct c)
      end.
      rewrite prefix_of_spec. split.
      * intros H. right. split; [reflexivity|]. now exists d.
      * intros [(d' & E & _) | (_ & d' & E & H)]; [discriminate|].
        now injection E as <-.
    + split; [discriminate|].
      intros [(d' & E & _) | (_ & d' & E & _)]; discriminate.
Qed.

Lemma isCosmosAddressValid_iff (lib : Codecs) (address pfx : jsstring) :
  cosmos_valid_iff lib address pfx.
Proof.
  unfold cosmos_valid_iff, isCosmosAddressValid.
  destruct (cosmjs_fromBech32 lib address) as [d|].
  - destruct (streq (prefix d) pfx) eqn:E; cbn [negb].
    + apply streq_iff in E. rewrite Z.eqb_eq. split.
      * intros H. exists d. repeat split; trivial. lia.
      * intros (d' & Ed & _ & H). injection Ed as <-. lia.
    + split; [discriminate|].
      intros (d' & Ed & Hp & _). injection Ed as <-.
      apply streq_iff in Hp. congruence.
  - split; [discriminate|]. intros (d' & Ed & _). discriminate.
Qed.

(** C4 (as amended).  For every input string the validators return a
    boolean (they are total: a throwing decoder is caught).
    [isCosmosAddressValid] returns true iff the string decodes as bech32
    with prefix equal to [bech32Prefix] and exactly 20 bytes of data.
    [isBitcoinAddressValid] returns true iff the string decodes as
    Base58Check with a [pubKeyHash]/[scriptHash] version byte of the
    requested network, or does not decode as Base58Check and decodes as
    bech32 with prefix ["bc"] (mainnet) or ["tb"]/["bcrt"] (testnet).  A
    string that neither decoder accepts is rejected with [false]. *)
Theorem address_validators_exact :
  forall (lib : Codecs) (env : BitcoinEnv) (address bech32Prefix : jsstring),
    cosmos_valid_iff lib address bech32Prefix /\
    bitcoin_valid_iff_in_order lib env address /\
    (fromBase58Check lib address = None ->
     bitcoin_fromBech32 lib address = None ->
     isBitcoinAddressValid lib address env = false) /\
    (cosmjs_fromBech32 lib address = None ->
     isCosmosAddressValid lib address bech32Prefix = false).
Proof.
  intros lib env address pfx.
  split; [apply isCosmosAddressValid_iff|].
  split; [apply isBitcoinAddressValid_in_order|].
  split.
  - intros E1 E2. unfold isBitcoinAddressValid. now rewrite E1, E2.
  - intros E. unfold isCosmosAddressValid. now rewrite E.
Qed.

Lemma address_validators_exact_witness :
  isBitcoinAddressValid sample_codecs genesis_address mainnet = true /\
  isBitcoinAddressValid sample_codecs segwit_address mainnet = true /\
  isBitcoinAddressValid sample_codecs (lit "not an address") testnet = false /\
  isCosmosAddressValid sample_codecs osmo_address (lit "osmo") = true.
Proof.
  split; [|split; [|split]].
  - apply (address_validators_exact
             sample_codecs mainnet genesis_address (lit "osmo")).
    left. eexists. split; [reflexivity|]. left. reflexivity.
  - apply (address_validators_exact
             sample_codecs mainnet segwit_address (lit "osmo")).
    right. split; [reflexivity|]. eexists. split; reflexivity.
  - apply (address_validators_exact
             sample_codecs testnet (lit "not an address") (lit "osmo"));
      reflexivity.
  - apply (address_validators_exact
             sample_codecs mainnet osmo_address (lit "osmo")).
    eexists. repeat split; reflexivity.
Defined.

(** C4 as stated fails: a string that decodes as Base58Check with a version
    byte of neither network is rejected in the [try] branch, although it
    also decodes as bech32 with prefix ["bc"]. *)
Lemma isBitcoinAddressValid_twofold_string :
  isBitcoinAddressValid sample_codecs twofold_address mainnet = false /\
  bech32_accepts sample_codecs mainnet twofold_address /\
  ~ bitcoin_valid_iff_either sample_codecs mainnet twofold_address.
Proof.
  assert (bech32_accepts sample_codecs mainnet twofold_address) as Hb.
  { eexists. split; reflexivity. }
  split; [reflexivity|]. split; [exact Hb|].
  intros [_ H]. specialize (H (or_intror Hb)). discriminate H.
Qed.

End AddressProps.

(* ================================================================== *)
(** ** Further properties of the string utilities                       *)
(* ================================================================== *)

Module StringExtra.

Import StringUtils StringSpec StringProps.

(** *** truncate and shorten *)

Lemma firstn_app_left (a b : jsstring) (k : nat) :
  k = List.length a -> firstn k (a ++ b) = a.
Proof.
  intros ->. rewrite firstn_app, firstn_all, Nat.sub_diag.
  cbn. apply app_nil_r.
Qed.

(** X1.  For a non-negative breakpoint, truncating an already truncated
    string changes nothing. *)
Theorem truncate_idempotent :
  forall (str : jsstring) (num : Z),
    0 <= num ->
    truncate (truncate str (Some num)) (Some num) = truncate str (Some num).
Proof.
  intros str num Hnum. unfold truncate.
  destruct (len str <=? num) eqn:E; [now rewrite E|].
  apply Z.leb_gt in E. rewrite slice_0_inside by lia.
  set (t := firstn (Z.to_nat num) str ++ lit "...").
  assert (len t = num + 3) as Ht.
  { unfold t. rewrite len_app, len_firstn by lia. reflexivity. }
  destruct (len t <=? num) eqn:E2; [apply Z.leb_le in E2; lia|].
  rewrite slice_0_inside by lia. unfold t at 1.
  rewrite firstn_app_left; [reflexivity|].
  rewrite length_firstn. unfold len in E. lia.
Qed.

Lemma truncate_idempotent_witness :
  truncate (truncate (lit "osmo1abcdefgh") (Some 8)) (Some 8) =
  lit "osmo1abc...".
Proof.
  rewrite (truncate_idempotent (lit "osmo1abcdefgh") 8); [reflexivity | lia].
Defined.

(** X2.  When [prefixLength] and [suffixLength] are non-negative
    integers, the result of [shorten] is longer than its input exactly
    when the input has more than [prefixLength + suffixLength] units but
    fewer than [prefixLength + suffixLength + delim.length]. *)
Theorem shorten_lengthens_iff :
  forall (string : jsstring) (opts : option ShortenOpts) (p s : Z),
    integer_valued (opt_field opts prefixLength (of_int 6)) p ->
    integer_valued (opt_field opts suffixLength (of_int 5)) s ->
    0 <= p -> 0 <= s ->
    let d := opt_field opts delim (lit "...") in
    (len string < len (shorten string opts) <->
     p + s < len string < p + s + len d).
Proof.
  intros string opts p s Ip Is Hp Hs d.
  destruct (shorten_nonneg string opts p s Ip Is Hp Hs)
    as (_ & Hsame & Hcut & _).
  fold d in Hcut.
  pose proof (len_nonneg string) as Hn. pose proof (len_nonneg d) as Hd.
  destruct (Z.le_gt_cases (len string) (p + s)) as [Hle | Hgt].
  - rewrite (Hsame Hle). lia.
  - rewrite (Hcut Hgt).
    rewrite !len_app, len_firstn, len_skipn by lia. lia.
Qed.

Lemma shorten_lengthens_iff_witness :
  len (lit "osmo1abcdefg") < len (shorten (lit "osmo1abcdefg") None).
Proof.
  apply (shorten_lengthens_iff (lit "osmo1abcdefg") None 6 5);
    try (cbn; lia); cbn; reflexivity.
Defined.

(** *** ellipsisText *)

Lemma trimStart_no_leading_space (s : jsstring) :
  no_leading_space (trimStart s).
Proof.
  induction s as [|c r IH]; [exact I|].
  cbn [trimStart]. destruct (is_space c) eqn:E; [exact IH | exact E].
Qed.

Lemma trimStart_suffix (s : jsstring) :
  exists p, s = p ++ trimStart s.
Proof.
  induction s as [|c r [p IH]]; [now exists []|].
  cbn [trimStart]. destruct (is_space c).
  - exists (c :: p). cbn. now f_equal.
  - now exists [].
Qed.

Lemma trimEnd_prefix (s : jsstring) :
  exists q, s = trimEnd s ++ q.
Proof.
  unfold trimEnd. destruct (trimStart_suffix (rev s)) as [p Hp].
  exists (rev p). rewrite <- rev_app_distr, <- Hp. symmetry.
  apply rev_involutive.
Qed.

Lemma prefix_no_leading_space (a b : jsstring) :
  no_leading_space (a ++ b) -> no_leading_space a.
Proof. destruct a; [intros _; exact I | trivial]. Qed.

Lemma trim_no_leading_space (s : jsstring) : no_leading_space (trim s).
Proof.
  unfold trim. destruct (trimEnd_prefix (trimStart s)) as [q Hq].
  apply (prefix_no_leading_space _ q). rewrite <- Hq.
  apply trimStart_no_leading_space.
Qed.

Lemma slice_0_prefix (s : jsstring) (e : Z) :
  exists k, slice s 0 e = firstn k s.
Proof.
  unfold slice. pose proof (len_nonneg s) as Hn.
  assert (rel_index (len s) 0 = 0) as ->.
  { unfold rel_index. change (0 <? 0) with false. cbv iota. lia. }
  rewrite Z.sub_0_r. cbn [Z.to_nat skipn]. now eexists.
Qed.

(** X3.  For every string and every [maxLength], negative ones included,
    the result of [ellipsisText] does not begin with white space. *)
Theorem ellipsisText_no_leading_space :
  forall (str : jsstring) (maxLength : Z),
    no_leading_space (ellipsisText str maxLength).
Proof.
  intros str maxLength. unfold ellipsisText.
  destruct (truthy str); cbn [negb]; [|exact I].
  destruct (len str >? maxLength); [|apply trim_no_leading_space].
  destruct (slice_0_prefix (trim str) (maxLength - 3)) as [k ->].
  pose proof (trim_no_leading_space str) as H.
  rewrite <- (firstn_skipn k (trim str)) in H.
  apply prefix_no_leading_space in H.
  destruct (firstn k (trim str)); [reflexivity | exact H].
Qed.

(** X4.  The cut is decided on the untrimmed length: when the input is
    longer than [maxLength] (at least 3) but its trimmed form has at most
    [maxLength - 3] units, the result is the whole trimmed text followed
    by ["..."], although nothing was cut from it. *)
Theorem ellipsisText_padded_input :
  forall (str : jsstring) (maxLength : Z),
    3 <= maxLength ->
    maxLength < len str ->
    len (trim str) <= maxLength - 3 ->
    ellipsisText str maxLength = trim str ++ lit "...".
Proof.
  intros str maxLength Hmax Hlen Htrim. unfold ellipsisText.
  destruct str as [|c r]; [cbn in Hlen; lia|]. cbn [truthy negb].
  destruct (Z.gtb_spec (len (c :: r)) maxLength) as [_ | Hle]; [|lia].
  rewrite slice_0_inside by lia. f_equal.
  apply firstn_all2. unfold len in Htrim. lia.
Qed.

Lemma ellipsisText_padded_input_witness :
  ellipsisText (lit "  ab  ") 5 = lit "ab...".
Proof.
  rewrite (ellipsisText_padded_input (lit "  ab  ") 5); cbn; try lia.
  reflexivity.
Defined.

(** *** normalizeUrl *)

(** X5.  [normalizeUrl] returns a middle part of its input: what it
    leaves out in front is one of [""], ["http://"], ["https://"],
    ["www."], ["http://www."], ["https://www."], and what it leaves out
    at the end is [""] or ["/"]. *)
Theorem normalizeUrl_shape :
  forall url : jsstring,
    exists p q,
      url = p ++ normalizeUrl url ++ q /\
      In p removable_prefixes /\
      (q = lit "" \/ q = lit "/").
Proof.
  intros url. unfold normalizeUrl.
  destruct (replace_scheme_shape url) as (p1 & H1 & Hp1 & _).
  destruct (replace_www_shape (replace_scheme url)) as (p2 & H2 & Hp2 & _).
  destruct (replace_trailing_slash_shape (replace_www (replace_scheme url)))
    as (q & H3 & Hq & _).
  exists (p1 ++ p2), q. split; [|split; [|exact Hq]].
  - rewrite <- app_assoc, <- H3, <- H2. exact H1.
  - unfold removable_prefixes.
    destruct Hp1 as [-> | [-> | ->]]; destruct Hp2 as [-> | ->]; cbn; auto 10.
Qed.

(** X6.  [normalizeUrl] leaves a string as it is exactly when the string
    begins with none of ["http://"], ["https://"], ["www."] and does not
    end with ["/"]. *)
Theorem normalizeUrl_fixed_iff_normalized :
  forall url : jsstring, normalizeUrl url = url <-> normalized url.
Proof.
  intros url. unfold normalizeUrl.
  destruct (replace_scheme_shape url) as (p1 & H1 & Hp1 & N1).
  destruct (replace_www_shape (replace_scheme url)) as (p2 & H2 & Hp2 & N2).
  destruct (replace_trailing_slash_shape (replace_www (replace_scheme url)))
    as (q & H3 & Hq & N3).
  set (u1 := replace_scheme url) in *. set (u2 := replace_www u1) in *.
  set (u3 := replace_trailing_slash u2) in *.
  assert (len url = len p1 + len p2 + len u3 + len q) as Hlen.
  { rewrite H1, H2, H3 at 1. rewrite !len_app. lia. }
  assert (forall x : jsstring, len x = 0 -> x = lit "") as Hnil.
  { intros [|c x]; [reflexivity | unfold len; cbn; lia]. }
  pose proof (len_nonneg p1). pose proof (len_nonneg p2).
  pose proof (len_nonneg q).
  split.
  - intros Heq. clearbody u1 u2 u3. rewrite Heq in Hlen.
    assert (p1 = lit "") as E1 by (apply Hnil; lia).
    assert (p2 = lit "") as E2 by (apply Hnil; lia).
    assert (q = lit "") as E3 by (apply Hnil; lia).
    specialize (N1 E1). specialize (N2 E2). specialize (N3 E3).
    subst p1 p2 q. cbn [lit list_ascii_of_string app] in H1, H2.
    subst u1 u2.
    repeat split; trivial.
    + destruct (starts_with (lit "http://") url) eqn:S; [|reflexivity].
      apply starts_with_spec in S. destruct S as [r Hr].
      assert (match_scheme url = Some r) as M
          by (apply match_scheme_spec; now left).
      congruence.
    + destruct (starts_with (lit "https://") url) eqn:S; [|reflexivity].
      apply starts_with_spec in S. destruct S as [r Hr].
      assert (match_scheme url = Some r) as M
          by (apply match_scheme_spec; now right).
      congruence.
  - intros ((S1 & S2 & S3) & S4).
    assert (match_scheme url = None) as M.
    { destruct (match_scheme url) as [r|] eqn:M; [|reflexivity].
      apply match_scheme_spec in M. destruct M as [M | M].
      - assert (starts_with (lit "http://") url = true)
          by (apply starts_with_spec; now exists r). congruence.
      - assert (starts_with (lit "https://") url = true)
          by (apply starts_with_spec; now exists r). congruence. }
    subst u3 u2 u1. unfold replace_scheme. rewrite M.
    unfold replace_www. unfold starts_with in S3.
    destruct (strip_prefix (lit "www.") url); [discriminate|].
    unfold replace_trailing_slash. now rewrite S4.
Qed.

(** *** Case conversions *)

(** X7.  Neither conversion leaves an ASCII capital in its result. *)
Theorem case_conversions_no_capitals :
  forall s : jsstring,
    no_capitals (camelCaseToSnakeCase s) /\ no_capitals (camelToKebabCase s).
Proof.
  intros s. split.
  - apply toLowerCase_no_capitals.
  - apply replace_leading_dash_no_capitals, replace_capitals_no_capitals.
Qed.

Lemma lower_capital_not_dash (c : ascii) :
  is_AZ c = true -> Ascii.eqb "-" (lower_char c) = false.
Proof.
  destruct c as [[] [] [] [] [] [] [] []]; intros H;
    solve [reflexivity | discriminate H].
Qed.

Lemma camelToKebabCase_no_leading_dash (s : jsstring) :
  starts_with (lit "-") s = false ->
  starts_with (lit "-") (camelToKebabCase s) = false.
Proof.
  intros H. destruct s as [|c t]; [reflexivity|].
  assert (Ascii.eqb "-" c = false) as Hc.
  { unfold starts_with in H. change (lit "-") with ["-"%char] in H.
    cbn [strip_prefix] in H. now destruct (Ascii.eqb "-" c). }
  unfold camelToKebabCase, replace_capitals, replace_leading_dash, starts_with.
  change (lit "-") with ["-"%char]. cbn [flat_map].
  destruct (is_AZ c) eqn:E.
  - cbn [toLowerCase map app strip_prefix].
    change (Ascii.eqb "-" "-") with true. cbv iota. cbn [strip_prefix].
    now rewrite (lower_capital_not_dash c E).
  - cbn [app strip_prefix]. rewrite Hc. cbn [strip_prefix]. now rewrite Hc.
Qed.

(** X8.  For every string that does not begin with ["-"],
    [camelToKebabCase] applied twice equals [camelToKebabCase] applied
    once. *)
Theorem camelToKebabCase_idempotent_without_dash :
  forall s : jsstring,
    starts_with (lit "-") s = false ->
    camelToKebabCase (camelToKebabCase s) = camelToKebabCase s.
Proof.
  intros s H. rewrite camelToKebabCase_twice.
  apply replace_leading_dash_fixed. now apply camelToKebabCase_no_leading_dash.
Qed.

Lemma camelToKebabCase_idempotent_without_dash_witness :
  camelToKebabCase (camelToKebabCase (lit "OrderBook-Id")) =
  lit "order-book--id".
Proof.
  rewrite (camelToKebabCase_idempotent_without_dash (lit "OrderBook-Id"));
    reflexivity.
Defined.

(** *** formatICNSName *)

Lemma split_dot_no_dot (s : jsstring) :
  no_dot s -> split_dot s = (s, []).
Proof.
  induction 1 as [|c r Hc Hr IH]; [reflexivity|].
  cbn [split_dot]. rewrite IH.
  destruct (Ascii.eqb_spec c "."); [contradiction | reflexivity].
Qed.

(** The pieces and the dots between them make up the whole string. *)
Lemma split_dot_length (s : jsstring) :
  List.length s =
  (List.length (fst (split_dot s)) +
   list_sum (map (fun x => S (List.length x)) (snd (split_dot s))))%nat.
Proof.
  induction s as [|c r IH]; [reflexivity|].
  cbn [split_dot]. destruct (split_dot r) as [piece pieces].
  unfold list_sum in *. cbn [fst snd] in IH.
  destruct (Ascii.eqb c "."); cbn [fst snd map fold_right List.length];
    rewrite IH; lia.
Qed.

Lemma split_dot_chain_length (s user chain : jsstring)
  (more : list jsstring) :
  split_dot s = (user, chain :: more) ->
  len user + 1 + len chain <= len s /\
  (more = [] -> len s = len user + 1 + len chain).
Proof.
  intros H. pose proof (split_dot_length s) as L. rewrite H in L.
  unfold list_sum in L. cbn [fst snd map fold_right] in L.
  unfold len. split.
  - lia.
  - intros ->. cbn in L. lia.
Qed.

Lemma substring_whole (s : jsstring) (a b : Z) :
  a <= 0 -> len s <= b -> substring s a b = s.
Proof.
  intros Ha Hb. pose proof (len_nonneg s) as Hn.
  unfold substring, clamp.
  rewrite (Z.max_r a 0) by lia. rewrite (Z.min_l 0 (len s)) by lia.
  rewrite (Z.max_l b 0) by lia. rewrite (Z.min_r b (len s)) by lia.
  rewrite Z.min_l by lia. rewrite Z.max_r by lia.
  rewrite Z.sub_0_r. cbn [Z.to_nat skipn].
  apply firstn_all2. unfold len. lia.
Qed.

Lemma formatICNSName_long (name : jsstring) (m : Z) :
  name <> [] -> m < len name ->
  formatICNSName (Some name) (Some m) =
  let userName := fst (split_dot name) in
  Some (substring userName 0 10 ++ lit "..." ++
        substring userName (len userName - 5) (len userName) ++ lit "." ++
        concat_operand (nth_error (snd (split_dot name)) 0)).
Proof.
  intros Hne Hm. unfold formatICNSName.
  destruct name as [|c r]; [contradiction|]. cbn [truthy negb].
  destruct (Z.leb_spec (len (c :: r)) m); [lia | reflexivity].
Qed.

(** X9.  For a non-empty name longer than [maxLength] that contains no
    dot, the chain part is [undefined] and is concatenated as such: the
    result ends with [".undefined"]. *)
Theorem formatICNSName_without_dot :
  forall (name : jsstring) (maxLength : Z),
    name <> [] -> no_dot name -> maxLength < len name ->
    formatICNSName (Some name) (Some maxLength) =
    Some (substring name 0 10 ++ lit "..." ++
          substring name (len name - 5) (len name) ++ lit ".undefined").
Proof.
  intros name m Hne Hdot Hm.
  rewrite formatICNSName_long by assumption.
  rewrite (split_dot_no_dot name Hdot). reflexivity.
Qed.

Lemma formatICNSName_without_dot_witness :
  formatICNSName (Some (lit "averyveryverylongusername12345osmo")) (Some 28) =
  Some (lit "averyveryv...5osmo.undefined").
Proof.
  rewrite (formatICNSName_without_dot
             (lit "averyveryverylongusername12345osmo") 28).
  - reflexivity.
  - discriminate.
  - repeat constructor; discriminate.
  - cbn. lia.
Defined.

(** X10.  For a name longer than [maxLength] whose part before the first
    dot has at least 10 units and which has a second part, the result is
    the first 10 and the last 5 units of the first part around ["..."],
    a dot and the second part; it has [19 + chain.length] units, parts
    after the second are dropped, and it is shorter than the name when the
    first part has more than 18 units. *)
Theorem formatICNSName_long_user :
  forall (name user chain : jsstring) (more : list jsstring) (maxLength : Z),
    split_dot name = (user, chain :: more) ->
    10 <= len user ->
    maxLength < len name ->
    let r :=
      firstn 10 user ++ lit "..." ++
      skipn (Z.to_nat (len user - 5)) user ++ lit "." ++ chain in
    formatICNSName (Some name) (Some maxLength) = Some r /\
    len r = 19 + len chain /\
    (18 < len user -> len r < len name).
Proof.
  intros name user chain more m Hsplit Huser Hm r.
  destruct (split_dot_chain_length _ _ _ _ Hsplit) as [Hlen _].
  pose proof (len_nonneg chain) as Hc.
  assert (name <> []) as Hne.
  { intros ->. cbn in Hlen. lia. }
  assert (len r = 19 + len chain) as Hr.
  { unfold r. rewrite !len_app.
    change 10%nat with (Z.to_nat 10).
    rewrite len_firstn, len_skipn by lia.
    change (len (lit "...")) with 3. change (len (lit ".")) with 1. lia. }
  split; [|split; [exact Hr | lia]].
  rewrite formatICNSName_long by assumption.
  rewrite Hsplit. cbn [fst snd nth_error concat_operand].
  rewrite substring_prefix by lia. rewrite substring_suffix by lia.
  reflexivity.
Qed.

Lemma formatICNSName_long_user_witness :
  formatICNSName (Some (lit "averyveryverylongusername12345.osmo.x")) None =
  Some (lit "averyveryv...12345.osmo").
Proof.
  refine (proj1 (formatICNSName_long_user
            (lit "averyveryverylongusername12345.osmo.x")
            (lit "averyveryverylongusername12345") (lit "osmo") [lit "x"] 28
            _ _ _)); [reflexivity | cbn; lia | cbn; lia].
Defined.

(** X11.  For a name longer than [maxLength] whose part before the first
    dot has at most 5 units, both substrings are that whole part: it is
    written twice around ["..."], and when the name has exactly two parts
    the result is longer than the name by the length of the first part
    plus 3. *)
Theorem formatICNSName_short_user :
  forall (name user chain : jsstring) (more : list jsstring) (maxLength : Z),
    split_dot name = (user, chain :: more) ->
    len user <= 5 ->
    maxLength < len name ->
    let r := user ++ lit "..." ++ user ++ lit "." ++ chain in
    formatICNSName (Some name) (Some maxLength) = Some r /\
    (more = [] -> len r = len name + len user + 3).
Proof.
  intros name user chain more m Hsplit Huser Hm r.
  destruct (split_dot_chain_length _ _ _ _ Hsplit) as [Hlen Hexact].
  pose proof (len_nonneg chain) as Hc. pose proof (len_nonneg user) as Hu.
  assert (name <> []) as Hne.
  { intros ->. cbn in Hlen. lia. }
  split.
  - rewrite formatICNSName_long by assumption.
    rewrite Hsplit. cbn [fst snd nth_error concat_operand].
    rewrite !substring_whole by lia. reflexivity.
  - intros Hmore. rewrite (Hexact Hmore). unfold r. rewrite !len_app.
    change (len (lit "...")) with 3. change (len (lit ".")) with 1. lia.
Qed.

Lemma formatICNSName_short_user_witness :
  formatICNSName (Some (lit "abc.averyveryverylongchainname12345")) None =
  Some (lit "abc...abc.averyveryverylongchainname12345").
Proof.
  refine (proj1 (formatICNSName_short_user
            (lit "abc.averyveryverylongchainname12345")
            (lit "abc") (lit "averyveryverylongchainname12345") [] 28
            _ _ _)); [reflexivity | cbn; lia | cbn; lia].
Defined.

End StringExtra.

(* ================================================================== *)
(** ** Further properties of the order-book hooks                       *)
(* ================================================================== *)

Module HookExtra.

Import Hooks HookSpec HookProps.

(** *** Which queries run *)

(** X12.  In [useOrdersQuery] and in [useClaimableOrdersQuery] the SQS
    query and the node query are never enabled together. *)
Theorem backends_never_both_enabled :
  forall {Fn} (api : Api Fn) (a : OrdersArgs.t) (c : ClaimableArgs.t),
    enabled (ordersSQSOptions api a) && enabled (ordersNodeOptions api a)
      = false /\
    enabled (claimableSQSOptions api c) && enabled (claimableNodeOptions api c)
      = false.
Proof.
  intros Fn api a c. cbn [enabled ordersSQSOptions ordersNodeOptions
    claimableSQSOptions claimableNodeOptions pagedOptions].
  destruct (sqsActiveOrders api); cbn [negb];
    rewrite ?andb_false_r; split; reflexivity.
Qed.

(** X13.  No order query is enabled while the user address is empty or no
    order book is known, in particular while the order-book list has not
    been loaded; the claimable-orders queries are also both off when
    [disabled] is true.  The feature flag does not matter. *)
Theorem order_queries_guarded :
  forall {Fn} (api : Api Fn) (a : OrdersArgs.t) (c : ClaimableArgs.t),
    (OrdersArgs.userAddress a = lit "" \/
     Query.data (getPools_useQuery api) = None \/
     Query.data (getPools_useQuery api) = Some [] ->
     enabled (ordersSQSOptions api a) = false /\
     enabled (ordersNodeOptions api a) = false) /\
    (ClaimableArgs.userAddress c = lit "" \/
     Query.data (getPools_useQuery api) = None \/
     Query.data (getPools_useQuery api) = Some [] \/
     ClaimableArgs.disabled c = Some true ->
     enabled (claimableSQSOptions api c) = false /\
     enabled (claimableNodeOptions api c) = false).
Proof.
  intros Fn api a c.
  cbn [enabled ordersSQSOptions ordersNodeOptions
    claimableSQSOptions claimableNodeOptions pagedOptions].
  unfold addresses, useOrderbooks. cbn [fst].
  split.
  - intros [-> | [-> | ->]]; cbn; rewrite ?andb_false_r; split; reflexivity.
  - intros [-> | [-> | [-> | ->]]]; cbn; rewrite ?andb_false_r;
      split; reflexivity.
Qed.

Lemma order_queries_guarded_witness :
  enabled (claimableSQSOptions api_sqs_on
             {| ClaimableArgs.userAddress := lit "osmo1user";
                ClaimableArgs.disabled := Some true;
                ClaimableArgs.refetchInterval := None |}) = false.
Proof.
  refine (proj1 (proj2 (order_queries_guarded api_sqs_on
            (orders_of (lit "osmo1user"))
            {| ClaimableArgs.userAddress := lit "osmo1user";
               ClaimableArgs.disabled := Some true;
               ClaimableArgs.refetchInterval := None |}) _)).
  right. right. right. reflexivity.
Defined.

(** X14.  With the flag off the [filter] argument has no effect: the node
    query is called without it, so [useOrdersQuery] and
    [useOrderbookOrders] return the same for every filter. *)
Theorem filter_ignored_by_node_backend :
  forall {Fn} (api : Api Fn) (a : OrdersArgs.t) (f : option OrderFilter),
    sqsActiveOrders api = false ->
    useOrdersQuery api (with_filter a f) = useOrdersQuery api a /\
    useOrderbookOrders api (with_filter a f) = useOrderbookOrders api a.
Proof.
  intros Fn api a f Hflag.
  unfold useOrderbookOrders, useOrdersQuery. rewrite Hflag.
  split; reflexivity.
Qed.

Lemma filter_ignored_by_node_backend_witness :
  useOrderbookOrders api_sqs_off
    (with_filter (orders_of (lit "osmo1user")) (Some filled)) =
  useOrderbookOrders api_sqs_off (orders_of (lit "osmo1user")).
Proof.
  refine (proj2 (filter_ignored_by_node_backend api_sqs_off
            (orders_of (lit "osmo1user")) (Some filled) _)).
  reflexivity.
Defined.

(** *** useOrderbookOrders *)

Lemma useOrdersQuery_defaults {Fn} (api : Api Fn) (a : OrdersArgs.t) :
  useOrdersQuery api
    {| OrdersArgs.userAddress := OrdersArgs.userAddress a;
       OrdersArgs.pageSize := Some (nullish (OrdersArgs.pageSize a) 10);
       OrdersArgs.refetchInterval :=
         Some (nullish (OrdersArgs.refetchInterval a) 10000);
       OrdersArgs.filter := OrdersArgs.filter a |} =
  useOrdersQuery api a.
Proof. reflexivity. Qed.

(** X15.  [useOrderbookOrders] applies the same defaults as
    [useOrdersQuery]: its loading and pagination fields are those of
    [useOrdersQuery] on the arguments as given, its [orders] are the items
    of all pages of that query in order (none when the data is absent),
    and its [refetch] does nothing while a refetch is running and
    otherwise calls the query's [refetch]. *)
Theorem useOrderbookOrders_flattens :
  forall {Fn} (api : Api Fn) (a : OrdersArgs.t),
    let q := useOrdersQuery api a in
    let r := useOrderbookOrders api a in
    OrderbookOrders.orders r = all_items (InfiniteQuery.data q) /\
    OrderbookOrders.isLoading r = InfiniteQuery.isLoading q /\
    OrderbookOrders.fetchNextPage r = InfiniteQuery.fetchNextPage q /\
    OrderbookOrders.isFetching r = InfiniteQuery.isFetching q /\
    OrderbookOrders.isFetchingNextPage r = InfiniteQuery.isFetchingNextPage q /\
    OrderbookOrders.hasNextPage r = InfiniteQuery.hasNextPage q /\
    OrderbookOrders.isRefetching r = InfiniteQuery.isRefetching q /\
    (InfiniteQuery.isRefetching q = true -> OrderbookOrders.refetch r = None) /\
    (InfiniteQuery.isRefetching q = false ->
     OrderbookOrders.refetch r = Some (InfiniteQuery.refetch q)).
Proof.
  intros Fn api a q r. subst q r. unfold useOrderbookOrders.
  rewrite useOrdersQuery_defaults.
  cbn [OrderbookOrders.orders OrderbookOrders.isLoading
       OrderbookOrders.fetchNextPage OrderbookOrders.isFetching
       OrderbookOrders.isFetchingNextPage OrderbookOrders.hasNextPage
       OrderbookOrders.isRefetching OrderbookOrders.refetch].
  repeat split.
  - now destruct (InfiniteQuery.data (useOrdersQuery api a)).
  - now intros ->.
  - now intros ->.
Qed.

Lemma useOrderbookOrders_flattens_witness :
  OrderbookOrders.refetch
    (useOrderbookOrders api_sqs_on (orders_of (lit "osmo1user"))) = Some tt.
Proof.
  refine (proj2 (proj2 (proj2 (proj2 (proj2 (proj2 (proj2 (proj2
    (useOrderbookOrders_flattens api_sqs_on
       (orders_of (lit "osmo1user")))))))))) _).
  reflexivity.
Defined.

(** *** useOrderbookClaimableOrders *)

(** X16.  [count] is always the number of [orders] that
    [useOrderbookClaimableOrders] returns; with the flag off and no node
    data both are empty, and the callback then submits nothing. *)
Theorem claimable_count_is_length :
  forall {Fn} (api : Api Fn) (a : ClaimableArgs.t),
    let r := useOrderbookClaimableOrders api a in
    ClaimableOrders.count r = Z.of_nat (List.length (ClaimableOrders.orders r))
    /\
    (ClaimableQuery.data (useClaimableOrdersQuery api a) = None ->
     ClaimableOrders.orders r = [] /\
     forall w, ClaimableOrders.claimAllOrders r w = w).
Proof.
  intros Fn api a r. subst r. unfold useOrderbookClaimableOrders.
  cbn [ClaimableOrders.count ClaimableOrders.orders
       ClaimableOrders.claimAllOrders].
  destruct (ClaimableQuery.data (useClaimableOrdersQuery api a)) as [os|].
  - split; [reflexivity | discriminate].
  - split; [reflexivity|]. intros _. split; [reflexivity|].
    intros w. unfold claimAllOrders. now destruct (getWallet api).
Qed.

Lemma claimable_count_is_length_witness :
  ClaimableOrders.orders
    (useOrderbookClaimableOrders api_sqs_off (claimable_of (lit "osmo1user")))
  = [].
Proof.
  refine (proj1 (proj2 (claimable_count_is_length api_sqs_off
            (claimable_of (lit "osmo1user"))) _)).
  reflexivity.
Defined.

(** *** claimAllOrders *)

Lemma has_order_for_false (orders : list Order) (a : jsstring) :
  has_order_for orders a = false -> orders_for orders a = [].
Proof.
  intros H. pose proof (orders_for_empty orders a) as E.
  rewrite H in E. apply Z.eqb_eq in E.
  apply length_zero_iff_nil. lia.
Qed.

(** The pairs claimed, address after address. *)
Lemma claimed_pairs_by_address (addrs : list jsstring) (orders : list Order) :
  claimed_pairs (claimMsgs addrs orders) =
  map claim_pair (flat_map (orders_for orders) addrs).
Proof.
  unfold claimed_pairs.
  induction addrs as [|a addrs IH]; [reflexivity|].
  rewrite claimMsgs_cons, claimMsgFor_eq. cbn [flat_map].
  rewrite map_app, <- IH.
  destruct (has_order_for orders a) eqn:E.
  - reflexivity.
  - now rewrite (has_order_for_false orders a E).
Qed.

Lemma filter_either (A : Type) (p q : A -> bool) (l : list A) :
  (forall x, In x l -> p x = true -> q x = false) ->
  Permutation (List.filter p l ++ List.filter q l) (List.filter (fun x => p x || q x) l).
Proof.
  induction l as [|x l IH]; intros H; [constructor|].
  assert (Permutation (List.filter p l ++ List.filter q l)
                      (List.filter (fun x => p x || q x) l)) as IH'.
  { apply IH. intros y Hy. apply H. now right. }
  cbn [List.filter]. destruct (p x) eqn:Ep.
  - rewrite (H x (or_introl eq_refl) Ep). cbn [orb app].
    now constructor.
  - cbn [orb]. destruct (q x).
    + apply Permutation_sym, Permutation_cons_app, Permutation_sym, IH'.
    + exact IH'.
Qed.

Lemma on_known_book_In (addrs : list jsstring) (o : Order) :
  on_known_book addrs o = true <-> In (orderbookAddress o) addrs.
Proof.
  unfold on_known_book. rewrite existsb_exists. split.
  - intros (a & Hin & Ha). apply streq_true in Ha. now subst.
  - intros Hin. exists (orderbookAddress o). split; [exact Hin|].
    apply streq_refl.
Qed.

Lemma orders_by_address (addrs : list jsstring) (orders : list Order) :
  NoDup addrs ->
  Permutation (flat_map (orders_for orders) addrs)
              (List.filter (on_known_book addrs) orders).
Proof.
  induction 1 as [|a addrs Hnotin Hnd IH].
  - cbn [flat_map]. unfold on_known_book. cbn [existsb].
    induction orders as [|o os IHo]; [constructor | exact IHo].
  - cbn [flat_map].
    apply Permutation_trans with
      (orders_for orders a ++ List.filter (on_known_book addrs) orders).
    + now apply Permutation_app_head.
    + unfold orders_for.
      apply (filter_either Order
               (fun o => streq (orderbookAddress o) a) (on_known_book addrs)).
      intros o _ Ha. apply streq_true in Ha.
      destruct (on_known_book addrs o) eqn:E; [|reflexivity].
      apply on_known_book_In in E. rewrite Ha in E. contradiction.
Qed.

(** X17.  When the order-book addresses are distinct, the
    [tick_id, order_id] pairs of all built messages together are, up to
    order, the pairs of exactly the claimable orders that belong to a known
    order book: none of them is left out or claimed twice, and orders of
    unknown order books are in no message. *)
Theorem claimMsgs_cover_known_orders :
  forall (addrs : list jsstring) (orders : list Order),
    NoDup addrs ->
    Permutation (claimed_pairs (claimMsgs addrs orders))
                (map claim_pair (List.filter (on_known_book addrs) orders)).
Proof.
  intros addrs orders Hnd. rewrite claimed_pairs_by_address.
  apply Permutation_map. now apply orders_by_address.
Qed.

Lemma claimMsgs_cover_known_orders_witness :
  Permutation
    (claimed_pairs
       (claimMsgs [lit "osmo1b"; lit "osmo1a"]
          [order_at (lit "osmo1a") 5 1; order_at (lit "osmo1x") 9 9;
           order_at (lit "osmo1b") 7 2; order_at (lit "osmo1a") (-3) 4]))
    [(5, 1); (7, 2); (-3, 4)].
Proof.
  apply (claimMsgs_cover_known_orders [lit "osmo1b"; lit "osmo1a"]
           [order_at (lit "osmo1a") 5 1; order_at (lit "osmo1x") 9 9;
            order_at (lit "osmo1b") 7 2; order_at (lit "osmo1a") (-3) 4]).
  repeat constructor; cbn; intuition discriminate.
Defined.

(** X18.  [claimAllOrders] keeps the earlier submissions and adds at most
    one; a submission it adds is signed by the connected account, has type
    ["executeWasm"] and at least one message, and every message has at
    least one pair and no funds. *)
Theorem claimAllOrders_submits_properly :
  forall (account : option Wallet) (orders : option (list Order))
         (addrs : list jsstring) (w : World),
    claimAllOrders account orders addrs w = w \/
    exists s, claimAllOrders account orders addrs w = w ++ [s] /\
              proper_submission account s.
Proof.
  intros account orders addrs w. unfold claimAllOrders.
  destruct account as [acc|]; [|now left].
  destruct orders as [os|]; [|now left].
  destruct (Z.of_nat (List.length (claimMsgs addrs os)) >? 0) eqn:E;
    [|now left].
  right. eexists. split; [reflexivity|].
  unfold proper_submission. cbn [signer msgType msgs].
  split; [reflexivity|]. split; [reflexivity|]. split.
  - intros Hnil. rewrite Hnil in E. discriminate E.
  - intros m Hm.
    destruct (claimMsgs_well_formed addrs os m Hm) as (_ & Hhas & Hb & Hf).
    split; [|exact Hf].
    rewrite Hb. intros Hnil. apply map_eq_nil in Hnil.
    pose proof (orders_for_empty os (ExecuteMsg.contractAddress m)) as Hz.
    rewrite Hnil, Hhas in Hz. discriminate Hz.
Qed.

(** *** useOrderbookSelectableDenoms *)

Lemma existsb_streq (x : jsstring) (l : list jsstring) :
  existsb (streq x) l = true <-> In x l.
Proof.
  rewrite existsb_exists. split.
  - intros (y & Hy & E). apply streq_true in E. now subst.
  - intros H. exists x. split; [exact H | apply streq_refl].
Qed.

Lemma fold_set_add (xs acc : list jsstring) :
  NoDup acc ->
  NoDup (fold_left set_add xs acc) /\
  forall x, In x (fold_left set_add xs acc) <-> In x acc \/ In x xs.
Proof.
  revert acc. induction xs as [|y xs IH]; intros acc Hnd.
  - cbn. split; [exact Hnd | intuition].
  - cbn [fold_left]. unfold set_add at 2 4.
    destruct (existsb (streq y) acc) eqn:E.
    + apply existsb_streq in E.
      destruct (IH acc Hnd) as [H1 H2]. split; [exact H1|].
      intros x. rewrite H2. cbn [In]. intuition (subst; auto).
    + assert (~ In y acc) as Hy.
      { intros H. apply existsb_streq in H. congruence. }
      assert (NoDup (acc ++ [y])) as Hnd'.
      { apply NoDup_app; [exact Hnd | repeat constructor; intros [] |].
        intros a Ha [<- | []]. contradiction. }
      destruct (IH (acc ++ [y]) Hnd') as [H1 H2]. split; [exact H1|].
      intros x. rewrite H2, in_app_iff. cbn [In]. intuition.
Qed.

(** X19.  [selectableBaseDenoms] lists every base denom of the loaded
    order books exactly once: it has no duplicates, a denom is in it iff
    some order book has it as base denom, and it is empty while the order
    books have not been loaded. *)
Theorem selectableBaseDenoms_distinct :
  forall {Fn} (api : Api Fn),
    NoDup (selectableBaseDenoms api) /\
    (forall d, In d (selectableBaseDenoms api) <->
               exists ob, In ob (fst (useOrderbooks api)) /\
                          baseDenom ob = d) /\
    (Query.data (getPools_useQuery api) = None ->
     selectableBaseDenoms api = []).
Proof.
  intros Fn api. unfold selectableBaseDenoms, array_from_set.
  destruct (fold_set_add (map baseDenom (fst (useOrderbooks api))) []
              (NoDup_nil _)) as [H1 H2].
  split; [exact H1|]. split.
  - intros d. rewrite H2, in_map_iff. cbn [In]. split.
    + intros [[] | (ob & E & Hin)]. now exists ob.
    + intros (ob & Hin & E). right. now exists ob.
  - unfold useOrderbooks. cbn [fst]. now intros ->.
Qed.

Lemma selectableBaseDenoms_distinct_witness :
  selectableBaseDenoms api_with_fee = [].
Proof.
  refine (proj2 (proj2 (selectableBaseDenoms_distinct api_with_fee)) _).
  reflexivity.
Defined.

Lemma In_filterBoolean (A : Type) (l : list (option A)) (x : A) :
  In x (filterBoolean l) <-> In (Some x) l.
Proof.
  induction l as [|[y|] l IH]; cbn [filterBoolean In].
  - tauto.
  - rewrite IH. split; intros [H | H]; auto; left; congruence.
  - rewrite IH. split; [auto | intros [H | H]; [discriminate | exact H]].
Qed.

Lemma length_filterBoolean (A : Type) (l : list (option A)) :
  (List.length (filterBoolean l) <= List.length l)%nat.
Proof.
  induction l as [|[y|] l IH]; cbn [filterBoolean List.length]; lia.
Qed.

(** X20.  [selectableBaseAssets] has at most one asset per selectable
    base denom.  A user asset whose [coinMinimalDenom] is a selectable base
    denom is taken whatever the asset list says; every asset of the result
    is either such a user asset or the asset-list entry of a selectable
    base denom for which the user has no asset; denoms that neither source
    knows are dropped. *)
Theorem selectableBaseAssets_sources :
  forall {Fn} (api : Api Fn) (userPages : option (list (list Asset)))
         (getAssetFromAssetList : jsstring -> option Asset),
    let userAssets := selectableAssets userPages in
    let result := selectableBaseAssets api userPages getAssetFromAssetList in
    (List.length result <= List.length (selectableBaseDenoms api))%nat /\
    (forall d x, In d (selectableBaseDenoms api) ->
                 user_asset_for userAssets d = Some x ->
                 In x result /\ In x userAssets /\ coinMinimalDenom x = d) /\
    (forall x, In x result ->
       exists d, In d (selectableBaseDenoms api) /\
                 (user_asset_for userAssets d = Some x \/
                  (user_asset_for userAssets d = None /\
                   getAssetFromAssetList d = Some x))).
Proof.
  intros Fn api userPages lookup userAssets result.
  subst result. unfold selectableBaseAssets. fold userAssets.
  split; [|split].
  - eapply Nat.le_trans; [apply length_filterBoolean|].
    now rewrite length_map.
  - intros d x Hd Hx. split; [|split].
    + apply In_filterBoolean, in_map_iff. exists d. split; [|exact Hd].
      unfold user_asset_for in Hx. now rewrite Hx.
    + apply find_some in Hx. tauto.
    + apply find_some in Hx. destruct Hx as [_ Hx]. now apply streq_true.
  - intros x Hx. apply In_filterBoolean, in_map_iff in Hx.
    destruct Hx as (d & Hx & Hd). exists d. split; [exact Hd|].
    unfold user_asset_for.
    destruct (find _ userAssets) as [y|]; [left | right]; auto.
Qed.

Lemma selectableBaseAssets_sources_witness :
  In {| coinDenom := lit "OSMO"; coinMinimalDenom := lit "OSMO" |}
     (selectableBaseAssets api_sqs_on
        (Some [[ {| coinDenom := lit "OSMO"; coinMinimalDenom := lit "OSMO" |} ]])
        (fun _ => None)).
Proof.
  refine (proj1 (proj1 (proj2 (selectableBaseAssets_sources api_sqs_on
    (Some [[ {| coinDenom := lit "OSMO"; coinMinimalDenom := lit "OSMO" |} ]])
    (fun _ => None))) (lit "OSMO") _ _ _)).
  - left. reflexivity.
  - reflexivity.
Defined.

(** *** useOrderbook *)

Lemma find_all_false (A : Type) (f : A -> bool) (l : list A) :
  (forall x, f x = false) -> find f l = None.
Proof.
  intros H. induction l as [|x l IH]; [reflexivity|].
  cbn [find]. now rewrite H.
Qed.

(** X21.  When the base or the quote denom does not resolve to an asset,
    [useOrderbook] finds no order book whatever the list holds: [poolId]
    and [contractAddress] are [""], and once loading has finished the
    error is ["errors.noOrderbook"]. *)
Theorem useOrderbook_unresolved_asset :
  forall {Fn} (api : Api Fn) (baseDenom' quoteDenom' : jsstring),
    let assets := selectableAssets (getUserAssets_useInfiniteQuery api) in
    useSwapAsset api baseDenom' assets = None \/
    useSwapAsset api quoteDenom' assets = None ->
    let r := useOrderbook api baseDenom' quoteDenom' in
    UseOrderbook.orderbook r = None /\
    UseOrderbook.poolId r = lit "" /\
    UseOrderbook.contractAddress r = lit "" /\
    (UseOrderbook.isOrderbookLoading r = false ->
     UseOrderbook.error r = Some (lit "errors.noOrderbook")).
Proof.
  intros Fn api b q assets H r. subst r assets.
  unfold useOrderbook, selectableAssets in *.
  destruct (useOrderbooks api) as [obs loading].
  set (base := useSwapAsset api b _) in *.
  set (quote := useSwapAsset api q _) in *.
  assert (find (matches_pair base quote) obs = None) as Hfind.
  { apply find_all_false. intros ob. unfold matches_pair.
    destruct H as [-> | ->]; [reflexivity | now destruct base]. }
  rewrite Hfind. cbn. repeat split. now intros ->.
Qed.

Lemma useOrderbook_unresolved_asset_witness :
  UseOrderbook.contractAddress
    (useOrderbook api_sqs_on (lit "OSMO") (lit "USDC")) = lit "".
Proof.
  refine (proj1 (proj2 (proj2 (useOrderbook_unresolved_asset api_sqs_on
            (lit "OSMO") (lit "USDC") _)))).
  left. reflexivity.
Defined.

(** X22.  An order book that [useOrderbook] returns is one of the loaded
    list and trades the resolved pair: both denoms resolved to assets, its
    base denom is the base asset's [coinDenom] or [coinMinimalDenom], and
    likewise for the quote; the hook's [contractAddress] is that order
    book's, and its [poolId] is that order book's or [""] when missing. *)
Theorem useOrderbook_found_matches :
  forall {Fn} (api : Api Fn) (baseDenom' quoteDenom' : jsstring)
         (ob : Orderbook),
    let assets := selectableAssets (getUserAssets_useInfiniteQuery api) in
    let r := useOrderbook api baseDenom' quoteDenom' in
    UseOrderbook.orderbook r = Some ob ->
    In ob (fst (useOrderbooks api)) /\
    (exists base quote,
       useSwapAsset api baseDenom' assets = Some base /\
       useSwapAsset api quoteDenom' assets = Some quote /\
       (baseDenom ob = coinDenom base \/
        baseDenom ob = coinMinimalDenom base) /\
       (quoteDenom ob = coinDenom quote \/
        quoteDenom ob = coinMinimalDenom quote)) /\
    UseOrderbook.contractAddress r = contractAddress ob /\
    UseOrderbook.poolId r = nullish (poolId ob) (lit "").
Proof.
  intros Fn api b q ob assets r. subst r assets.
  unfold useOrderbook, selectableAssets.
  destruct (useOrderbooks api) as [obs loading].
  set (base := useSwapAsset api b _). set (quote := useSwapAsset api q _).
  cbn [UseOrderbook.orderbook UseOrderbook.contractAddress
       UseOrderbook.poolId fst].
  intros Hfind. rewrite Hfind. apply find_some in Hfind.
  destruct Hfind as [Hin Hm]. split; [exact Hin|]. split; [|split; reflexivity].
  unfold matches_pair in Hm.
  destruct base as [ba|]; [|discriminate]. destruct quote as [qa|];
    [|discriminate].
  exists ba, qa. split; [reflexivity|]. split; [reflexivity|].
  apply andb_true_iff in Hm. destruct Hm as [Hb Hq].
  apply orb_true_iff in Hb, Hq.
  split; [destruct Hb as [Hb | Hb] | destruct Hq as [Hq | Hq]];
    apply streq_true in Hb || apply streq_true in Hq; auto.
Qed.

Lemma useOrderbook_found_matches_witness :
  UseOrderbook.contractAddress
    (useOrderbook api_resolving (lit "OSMO") (lit "USDC")) = lit "osmo1book".
Proof.
  refine (proj1 (proj2 (proj2 (useOrderbook_found_matches api_resolving
            (lit "OSMO") (lit "USDC")
            {| baseDenom := lit "OSMO"; quoteDenom := lit "USDC";
               contractAddress := lit "osmo1book";
               poolId := Some (lit "1904") |} _)))).
  reflexivity.
Defined.

End HookExtra.

(* ================================================================== *)
(** ** Further properties of the address validators                     *)
(* ================================================================== *)

Module AddressExtra.

Import Address AddressSpec AddressProps.

(** X23.  No string is a valid Bitcoin address for both environments:
    what [isBitcoinAddressValid] accepts for mainnet it rejects for
    testnet. *)
Theorem bitcoin_environments_exclusive :
  forall (lib : Codecs) (address : jsstring),
    isBitcoinAddressValid lib address mainnet = true ->
    isBitcoinAddressValid lib address testnet = false.
Proof.
  intros lib address Hm.
  destruct (isBitcoinAddressValid lib address testnet) eqn:Ht; [|reflexivity].
  apply isBitcoinAddressValid_in_order in Hm, Ht. exfalso.
  destruct Hm as [(d & Ed & Hv) | (En & d & Ed & Hp)];
    destruct Ht as [(d' & Ed' & Hv') | (En' & d' & Ed' & Hp')];
    try congruence.
  - rewrite Ed in Ed'. injection Ed' as <-.
    cbn in Hv, Hv'. lia.
  - rewrite Ed in Ed'. injection Ed' as <-.
    cbn in Hp, Hp'. rewrite Hp in Hp'. destruct Hp'; discriminate.
Qed.

Lemma bitcoin_environments_exclusive_witness :
  isBitcoinAddressValid sample_codecs genesis_address testnet = false.
Proof.
  apply (bitcoin_environments_exclusive sample_codecs genesis_address).
  reflexivity.
Defined.

(** X24.  A string is a valid Cosmos address for at most one prefix. *)
Theorem cosmos_prefix_unique :
  forall (lib : Codecs) (address p1 p2 : jsstring),
    isCosmosAddressValid lib address p1 = true ->
    isCosmosAddressValid lib address p2 = true ->
    p1 = p2.
Proof.
  intros lib address p1 p2 H1 H2.
  apply isCosmosAddressValid_iff in H1, H2.
  destruct H1 as (d1 & E1 & <- & _). destruct H2 as (d2 & E2 & <- & _).
  congruence.
Qed.

Lemma cosmos_prefix_unique_witness :
  lit "osmo" = lit "osmo".
Proof.
  apply (cosmos_prefix_unique sample_codecs osmo_address); reflexivity.
Defined.

Lemma bytes_eq_true (a b : list Byte.byte) : bytes_eq a b = true -> a = b.
Proof.
  unfold bytes_eq. now destruct (list_eq_dec Byte.byte_eq_dec a b).
Qed.

Lemma sample_toBech32_decodes (pfx : jsstring) :
  decodes_what_it_encodes cosmos_codecs sample_toBech32 pfx.
Proof.
  intros d a. unfold sample_toBech32.
  destruct (streq (toLowerCase pfx) (lit "osmo") && bytes_eq d sample_data)
    eqn:E1.
  - apply andb_true_iff in E1. destruct E1 as [Ep Ed].
    apply streq_iff in Ep. apply bytes_eq_true in Ed. rewrite Ep, Ed.
    intros [= <-]. reflexivity.
  - destruct (streq (toLowerCase pfx) (lit "cosmos") && bytes_eq d sample_data)
      eqn:E2; [|discriminate].
    apply andb_true_iff in E2. destruct E2 as [Ep Ed].
    apply streq_iff in Ep. apply bytes_eq_true in Ed. rewrite Ep, Ed.
    intros [= <-]. reflexivity.
Qed.

(** X25.  When, for the desired prefix, the library's decoder reads back
    what its encoder wrote (the lower-cased prefix and the same data), the
    address that [deriveCosmosAddress] derives from a valid Cosmos address
    is a valid Cosmos address for the lower-cased desired prefix; it is
    valid for the desired prefix itself exactly when lower-casing leaves
    that prefix as it is. *)
Theorem deriveCosmosAddress_valid :
  forall (lib : Codecs)
         (toBech32 : jsstring -> list Byte.byte -> option jsstring)
         (address pfx desired derived : jsstring),
    decodes_what_it_encodes lib toBech32 desired ->
    isCosmosAddressValid lib address pfx = true ->
    deriveCosmosAddress lib toBech32 address desired = Some derived ->
    isCosmosAddressValid lib derived (toLowerCase desired) = true /\
    (isCosmosAddressValid lib derived desired = true <->
     toLowerCase desired = desired).
Proof.
  intros lib toBech32 address pfx desired derived Hrt Hvalid Hder.
  apply isCosmosAddressValid_iff in Hvalid.
  destruct Hvalid as (d & Ed & Hp & Hlen).
  unfold deriveCosmosAddress in Hder. rewrite Ed in Hder.
  pose proof (Hrt _ _ Hder) as Hdec.
  assert (isCosmosAddressValid lib derived (toLowerCase desired) = true) as Hl.
  { apply isCosmosAddressValid_iff. eexists. split; [exact Hdec|].
    split; [reflexivity | exact Hlen]. }
  split; [exact Hl|]. split.
  - intros H. apply isCosmosAddressValid_iff in H.
    destruct H as (d' & Ed' & Hp' & _).
    rewrite Hdec in Ed'. injection Ed' as <-. exact Hp'.
  - intros E. now rewrite E in Hl.
Qed.

Lemma deriveCosmosAddress_valid_witness :
  isCosmosAddressValid cosmos_codecs cosmos_address (lit "cosmos") = true.
Proof.
  refine (proj1 (deriveCosmosAddress_valid cosmos_codecs
            sample_toBech32 osmo_address (lit "osmo") (lit "cosmos")
            cosmos_address (sample_toBech32_decodes (lit "cosmos")) _ _));
    reflexivity.
Defined.

(** With a desired prefix in capitals the derived address carries the
    lower-case prefix and is not valid for the prefix that was asked
    for. *)
Example deriveCosmosAddress_capital_prefix :
  deriveCosmosAddress cosmos_codecs sample_toBech32 osmo_address
    (lit "COSMOS") = Some cosmos_address /\
  isCosmosAddressValid cosmos_codecs cosmos_address (lit "COSMOS") = false.
Proof. split; reflexivity. Qed.

End AddressExtra.
